(** * Vega-scraper: a shallow embedding of [scraper.py] and its properties.

    Python [str] values are modelled as Rocq [string]s; character-level
    work goes through [list ascii].  The model covers ASCII text: the
    character classes below ([\s], [\w], [\d], case folding) follow
    Python's behaviour on code points 0-127.  Regular expressions are
    embedded through a small backtracking matcher ([Regex]) that follows
    the leftmost, ordered-alternation semantics of Python's [re]. *)

From Stdlib Require Import Ascii String List Arith Lia ZArith Bool Permutation Sorted DecimalString.
From stdpp Require Import gmap strings list.
Import ListNotations.

Local Open Scope bool_scope.

(* ------------------------------------------------------------------ *)
(** ** Characters *)

Module Chars.

Definition code (c : ascii) : nat := nat_of_ascii c.

(** [str.isspace] / [\s] on ASCII: \t \n \v \f \r, \x1c-\x1f and space. *)
Definition py_isspace (c : ascii) : bool :=
  let n := code c in ((9 <=? n) && (n <=? 13)) || ((28 <=? n) && (n <=? 32)).

Definition is_digit (c : ascii) : bool :=
  let n := code c in (48 <=? n) && (n <=? 57).

Definition is_upper (c : ascii) : bool :=
  let n := code c in (65 <=? n) && (n <=? 90).

Definition is_lower (c : ascii) : bool :=
  let n := code c in (97 <=? n) && (n <=? 122).

(** Cased characters for [str.title] (letters). *)
Definition is_cased (c : ascii) : bool := is_upper c || is_lower c.

(** [\w]: letters, digits and underscore. *)
Definition is_word (c : ascii) : bool :=
  is_cased c || is_digit c || Ascii.eqb c "_"%char.

Definition to_lower (c : ascii) : ascii :=
  if is_upper c then ascii_of_nat (code c + 32) else c.

Definition to_upper (c : ascii) : ascii :=
  if is_lower c then ascii_of_nat (code c - 32) else c.

End Chars.

Import Chars.

(* ------------------------------------------------------------------ *)
(** ** Python string methods *)

Module Py.

Definition chars (s : string) : list ascii := list_ascii_of_string s.
Definition of_chars (l : list ascii) : string := string_of_list_ascii l.

(** [str.lower] *)
Definition lower (s : string) : string := of_chars (map to_lower (chars s)).

(** [str.strip()] *)
Fixpoint lstrip_l (l : list ascii) : list ascii :=
  match l with
  | c :: r => if py_isspace c then lstrip_l r else l
  | [] => []
  end.

Definition strip_l (l : list ascii) : list ascii := rev (lstrip_l (rev (lstrip_l l))).

Definition strip (s : string) : string := of_chars (strip_l (chars s)).

(** [str.title]: a cased character is upper-cased after an uncased one
    and lower-cased after a cased one. *)
Fixpoint title_l (prev_cased : bool) (l : list ascii) : list ascii :=
  match l with
  | [] => []
  | c :: r =>
      (if prev_cased then to_lower c else to_upper c) :: title_l (is_cased c) r
  end.

Definition title (s : string) : string := of_chars (title_l false (chars s)).

(** [w] is a prefix of [l]. *)
Fixpoint prefix_l (w l : list ascii) : bool :=
  match w, l with
  | [], _ => true
  | c :: w', d :: l' => Ascii.eqb c d && prefix_l w' l'
  | _ :: _, [] => false
  end.

(** [w] occurs in [l]. *)
Fixpoint contains_l (w l : list ascii) : bool :=
  prefix_l w l || match l with [] => false | _ :: l' => contains_l w l' end.

(** [sub in s] *)
Definition contains (sub s : string) : bool := contains_l (chars sub) (chars s).

(** [s.startswith(p)] *)
Definition startswith (p s : string) : bool := prefix_l (chars p) (chars s).

(** Python truthiness of an optional string ([None] and [""] are falsy). *)
Definition truthy (o : option string) : bool :=
  match o with Some (String _ _) => true | _ => false end.

(** [s.split(sep)] for a one-character separator. *)
Fixpoint split_l (sep : ascii) (l : list ascii) : list (list ascii) :=
  match l with
  | [] => [[]]
  | c :: r =>
      match split_l sep r with
      | w :: ws => if Ascii.eqb c sep then [] :: w :: ws else (c :: w) :: ws
      | [] => [[c]]
      end
  end.

Definition split (sep : ascii) (s : string) : list string :=
  map of_chars (split_l sep (chars s)).

(** [s.replace(a, b)] for one-character [a] and [b]. *)
Definition replace_char (a b : ascii) (s : string) : string :=
  of_chars (map (fun c => if Ascii.eqb c a then b else c) (chars s)).

End Py.

(* ------------------------------------------------------------------ *)
(** ** Regular expressions (Python [re]) *)

Module Regex.

Inductive regex : Type :=
  | RChr (c : ascii)                 (* literal character *)
  | RAny                             (* [.]: any character but newline *)
  | RCls (f : ascii -> bool)         (* character class *)
  | RBnd                             (* [\b] *)
  | REol                             (* [$] *)
  | REps                             (* empty pattern *)
  | RCat (r1 r2 : regex)
  | RAlt (r1 r2 : regex)             (* ordered alternation [r1|r2] *)
  | RStar (greedy : bool) (r : regex).  (* [r*] (greedy) or [r*?] (lazy) *)

Definition nl : ascii := "010"%char.

(** Character comparison; [ci] is the [re.I] flag. *)
Definition chr_eq (ci : bool) (c d : ascii) : bool :=
  if ci then Ascii.eqb (to_lower c) (to_lower d) else Ascii.eqb c d.

Definition word_at (s : list ascii) (i : nat) : bool :=
  match nth_error s i with Some c => is_word c | None => false end.

(** [\b] at position [i]: a word character on exactly one side. *)
Definition boundary (s : list ascii) (i : nat) : bool :=
  let before := match i with 0 => false | S j => word_at s j end in
  xorb before (word_at s i).

(** [$]: end of the string, or just before a final newline. *)
Definition at_eol (s : list ascii) (i : nat) : bool :=
  (i =? length s) ||
  ((S i =? length s) && match nth_error s i with Some c => Ascii.eqb c nl | None => false end).

(** [mt ci s r i k]: match [r] in [s] at position [i], then continue with
    [k] at the end position; backtracking explores the alternatives in
    Python's order.  The result is the end of the whole match. *)
Fixpoint mt (ci : bool) (s : list ascii) (r : regex) (i : nat)
         (k : nat -> option nat) {struct r} : option nat :=
  match r with
  | RChr c =>
      match nth_error s i with
      | Some d => if chr_eq ci c d then k (S i) else None
      | None => None
      end
  | RAny =>
      match nth_error s i with
      | Some d => if Ascii.eqb d nl then None else k (S i)
      | None => None
      end
  | RCls f =>
      match nth_error s i with
      | Some d => if f d then k (S i) else None
      | None => None
      end
  | RBnd => if boundary s i then k i else None
  | REol => if at_eol s i then k i else None
  | REps => k i
  | RCat r1 r2 => mt ci s r1 i (fun j => mt ci s r2 j k)
  | RAlt r1 r2 =>
      match mt ci s r1 i k with
      | Some e => Some e
      | None => mt ci s r2 i k
      end
  | RStar g r1 =>
      (fix star (n : nat) (i : nat) {struct n} : option nat :=
         match n with
         | 0 => k i
         | S n' =>
             if g then
               match mt ci s r1 i (fun j => if i <? j then star n' j else None) with
               | Some e => Some e
               | None => k i
               end
             else
               match k i with
               | Some e => Some e
               | None => mt ci s r1 i (fun j => if i <? j then star n' j else None)
               end
         end) (S (length s - i)) i
  end.

(** [re.search] from position [i]: the leftmost start, as [(start, end)]. *)
Fixpoint search_from (ci : bool) (r : regex) (s : list ascii) (i n : nat)
  : option (nat * nat) :=
  match n with
  | 0 => None
  | S n' =>
      match mt ci s r i Some with
      | Some j => Some (i, j)
      | None => search_from ci r s (S i) n'
      end
  end.

Definition search (ci : bool) (r : regex) (s : list ascii) : option (nat * nat) :=
  search_from ci r s 0 (S (length s)).

Definition slice (s : list ascii) (a b : nat) : list ascii := firstn (b - a) (skipn a s).

(** [re.sub]: non-overlapping matches from left to right, each replaced
    by [repl a b] (the match spans [a, b)).  An empty match copies one
    character and moves on (none of the patterns below matches empty). *)
Fixpoint sub_from (ci : bool) (r : regex) (repl : nat -> nat -> list ascii)
         (s : list ascii) (pos n : nat) : list ascii :=
  match n with
  | 0 => skipn pos s
  | S n' =>
      match search_from ci r s pos (S (length s - pos)) with
      | None => skipn pos s
      | Some (a, b) =>
          slice s pos a ++ repl a b ++
          (if a =? b then firstn 1 (skipn a s) ++ sub_from ci r repl s (S b) n'
           else sub_from ci r repl s b n')
      end
  end.

Definition sub (ci : bool) (r : regex) (repl : nat -> nat -> list ascii)
           (s : list ascii) : list ascii :=
  sub_from ci r repl s 0 (S (length s)).

(** Pattern-building helpers. *)
Fixpoint lit_l (l : list ascii) : regex :=
  match l with
  | [] => REps
  | [c] => RChr c
  | c :: r => RCat (RChr c) (lit_l r)
  end.

Definition lit (s : string) : regex := lit_l (list_ascii_of_string s).

Fixpoint alts (l : list regex) : regex :=
  match l with
  | [] => REps
  | [r] => r
  | r :: rs => RAlt r (alts rs)
  end.

Fixpoint cats (l : list regex) : regex :=
  match l with
  | [] => REps
  | [r] => r
  | r :: rs => RCat r (cats rs)
  end.

Definition plus (r : regex) : regex := RCat r (RStar true r).
Definition opt (r : regex) : regex := RAlt r REps.
Definition rep12 (r : regex) : regex := RCat r (opt r).
Definition digit : regex := RCls is_digit.
Definition space : regex := RCls py_isspace.

End Regex.

Import Regex.

(* ------------------------------------------------------------------ *)
(** ** Constants and helpers of [scraper.py] *)

Module Scraper.

Definition HOST_PRIORITY : list string :=
  ["gdtot"; "gdflix"; "hubcloud"; "v-cloud"; "drive.google"; "gdrive"; "gdlink"].

Definition ACCEPT_BUTTON_KEYWORDS : list string :=
  ["batch"; "zip"; "download"; "v-cloud"; "vcloud"; "download now"; "g-direct"].

(** [EPISODE_PATTERNS = [r"\bep\b", r"\bep\.", r"\bepisode\b",
     r"\bs\d{1,2}e\d{1,2}\b", r"\bS\d{1,2}E\d{1,2}\b"]] *)
Definition EPISODE_PATTERNS : list regex :=
  [ cats [RBnd; lit "ep"; RBnd];
    cats [RBnd; lit "ep."];
    cats [RBnd; lit "episode"; RBnd];
    cats [RBnd; RChr "s"; rep12 digit; RChr "e"; rep12 digit; RBnd];
    cats [RBnd; RChr "S"; rep12 digit; RChr "E"; rep12 digit; RBnd] ].

(** [is_episode(text)]: every pattern is searched with [re.I]. *)
Definition is_episode (text : string) : bool :=
  match text with
  | EmptyString => false
  | _ => existsb (fun p => if search true p (Py.chars text) then true else false)
                 EPISODE_PATTERNS
  end.

(** [r"(2160p|1080p|720p|480p|360p)"]; group 1 spans the whole match. *)
Definition QUALITY_RE : regex :=
  alts [lit "2160p"; lit "1080p"; lit "720p"; lit "480p"; lit "360p"].

(** [extract_quality(text)] *)
Definition extract_quality (text : string) : string :=
  match text with
  | EmptyString => "Unknown"
  | _ =>
      let l := Py.chars text in
      match search true QUALITY_RE l with
      | Some (a, b) => Py.lower (Py.of_chars (slice l a b))
      | None => "Unknown"
      end
  end.

(** [r"\.(mkv|mp4|avi|mov|zip)$"] *)
Definition EXT_RE : regex :=
  cats [RChr "."; alts [lit "mkv"; lit "mp4"; lit "avi"; lit "mov"; lit "zip"]; REol].

(** [r"\[.*?\]|\{.*?\}"] *)
Definition BRACKET_RE : regex :=
  RAlt (cats [RChr "["; RStar false RAny; RChr "]"])
       (cats [RChr "{"; RStar false RAny; RChr "}"]).

(** [r"\((.*?)\)"]; group 1 is the text between the parentheses. *)
Definition PAREN_RE : regex := cats [RChr "("; RStar false RAny; RChr ")"].

(** [r"^(19|20)\d{2}$"], used with [re.match]. *)
Definition YEAR_RE : regex := cats [RAlt (lit "19") (lit "20"); digit; digit; REol].

(** [r"[._\-]+"] *)
Definition SEP_RE : regex :=
  plus (RCls (fun c => Ascii.eqb c "." || Ascii.eqb c "_" || Ascii.eqb c "-")).

(** [r"\s+"] *)
Definition WS_RE : regex := plus space.

Definition word (s : string) : regex := cats [RBnd; lit s; RBnd].

(** The [junk] list of [clean_title], in order. *)
Definition JUNK : list regex :=
  [ word "download";
    cats [RBnd; lit "web"; opt (RCls (fun c => Ascii.eqb c "-" || Ascii.eqb c " ")); lit "dl"; RBnd];
    word "bluray"; word "brrip"; word "hdrip"; word "dual audio"; word "hindi";
    word "english"; word "esub"; word "subs"; word "x264"; word "x265";
    word "10bit"; word "web"; word "vegamovies" ].

(** [_keep_year(m)] for a match [(a, b)] of [PAREN_RE] in [s]. *)
Definition keep_year (s : list ascii) (a b : nat) : list ascii :=
  let inner := slice s (S a) (b - 1) in
  match mt false (Py.strip_l inner) YEAR_RE 0 Some with
  | Some _ => "("%char :: inner ++ [")"%char]
  | None => []
  end.

Definition erase (_ _ : nat) : list ascii := [].
Definition blank (_ _ : nat) : list ascii := [" "%char].

(** [clean_title(raw)] *)
Definition clean_title (raw : string) : string :=
  match raw with
  | EmptyString => "Unknown"
  | _ =>
      let s := Py.strip_l (Py.chars raw) in
      let s := sub true EXT_RE erase s in
      let s := sub false BRACKET_RE erase s in
      let s := sub false PAREN_RE (keep_year s) s in
      let s := sub false SEP_RE blank s in
      let s := fold_left (fun acc pat => sub true pat erase acc) JUNK s in
      let s := Py.strip_l (sub false WS_RE blank s) in
      Py.of_chars (Py.title_l false s)
  end.

(** [score(h)] inside [prefer_links]. *)
Fixpoint score_from (low : string) (idx : nat) (hosts : list string) : nat :=
  match hosts with
  | [] => idx
  | h :: hs => if Py.contains h low then idx else score_from low (S idx) hs
  end.

Definition score (h : string) : nat := score_from (Py.lower h) 0 HOST_PRIORITY.

(** [sorted(links, key=score)]: Python's sort is stable; insertion that
    places an element after every element of equal key is one. *)
Fixpoint insert_by (key : string -> nat) (x : string) (l : list string) : list string :=
  match l with
  | [] => [x]
  | y :: ys => if key x <? key y then x :: y :: ys else y :: insert_by key x ys
  end.

Definition sorted_by (key : string -> nat) (l : list string) : list string :=
  fold_left (fun acc x => insert_by key x acc) l [].

(** [prefer_links(links)] *)
Definition prefer_links (links : list string) : list string := sorted_by score links.

End Scraper.

Import Scraper.

(* ------------------------------------------------------------------ *)
(** ** Python exceptions and results *)

(** The exceptions the modelled code can raise or catch. *)
Inductive exn := IndexError | ValueError | OSError | OverflowError | MemoryError.

(** The outcome of a Python call: a returned value or a raised exception. *)
Inductive res (A : Type) := Ok (a : A) | Exc (e : exn).
Arguments Ok {A} a.
Arguments Exc {A} e.

(* ------------------------------------------------------------------ *)
(** ** The pipeline: [run_scraper] and [process_movie]

    The collaborators of the pipeline (Playwright, [requests],
    BeautifulSoup and the shortener resolver) are the fields of [env].
    Each external call is recorded in the trace, together with the
    ledger writes ([scraped[url] = True], [save_scraped()]), the result
    lines ([write_result]) and the two log lines the claims refer to.

    Not modelled: the exceptions of the calls that sit outside any [try]
    and whose failure depends on the machine or on the libraries, namely
    [open(RESULT_FILE, "a")], [chromium.launch], [browser.new_context],
    [context.new_page()], [BeautifulSoup(...)] and the file append of
    [write_result]; nor a ledger that [safe_load_json] returns as a JSON
    value other than an object ([scraped.get] then raises
    [AttributeError]).  Such an exception would end the run at that
    call.  The model's only raise is the [IndexError] of the title
    fallback, so what is proved below of a call that returns normally,
    or of every prefix of a run, also holds with these exceptions; what
    is proved of the exceptions themselves is limited to this one. *)

Module Pipeline.

(** An anchor [<a href>] as BeautifulSoup exposes it. *)
Record anchor := {
  a_href : string;      (* a["href"] *)
  a_text : string;      (* a.get_text(" ", strip=True) *)
  a_button : bool       (* a.find("button") is not None *)
}.

(** A parsed document. *)
Record doc := {
  d_title : option (option string);  (* soup.title, then its .string *)
  d_anchors : list anchor;           (* soup.find_all("a", href=True) *)
  d_h5 : option string;              (* text of the first h5.m-0/.font-weight-bold *)
  d_entry_hrefs : list string        (* soup.select("h3.entry-title a[href]") hrefs *)
}.

(** One attempt of the final-page loop: either the page loaded (its html
    and [fpage.title()], [None] when that raised), or the [try] block
    raised, possibly after [raw_title] had been assigned. *)
Inductive final_attempt :=
  | FAOk (html : string) (page_title : option string)
  | FAExc (assigned : option string).

Record env := {
  goto : string -> nat -> option string;    (* page.goto + page.content() at an attempt; None: raised *)
  fetch : string -> option string;          (* fetch_text_requests *)
  parse : string -> doc;                    (* BeautifulSoup(html, "html.parser") *)
  resolve : string -> string;               (* resolve_shortener_and_get_final *)
  final_try : string -> nat -> final_attempt
}.

Inductive event :=
  | EProcess (u : string)                   (* log "Processing movie: u" *)
  | EGoto (u : string)
  | EFetch (u : string)
  | EResolve (u : string)
  | EWrite (title quality link : string)    (* write_result *)
  | ESkip (title quality : string)          (* log "Already saved: ..." *)
  | EMark (u : string)                      (* scraped[u] = True *)
  | ESave.                                  (* save_scraped() *)

Record st := { scraped : gmap string bool; trace : list event }.

Definition M (A : Type) : Type := st -> res A * st.

Global Instance M_ret : MRet M := fun A a s => (Ok a, s).
Global Instance M_bind : MBind M := fun A B f m s =>
  match m s with
  | (Ok a, s') => f a s'
  | (Exc e, s') => (Exc e, s')
  end.

Definition emit (e : event) : M unit :=
  fun s => (Ok tt, {| scraped := scraped s; trace := trace s ++ [e] |}).

Definition raise {A} (e : exn) : M A := fun s => (Exc e, s).

Fixpoint foldM {A B} (f : A -> B -> M A) (a : A) (l : list B) : M A :=
  match l with
  | [] => mret a
  | x :: xs => a' ← f a x; foldM f a' xs
  end.

Definition MOVIE_LOAD_RETRIES := 3.
Definition VGMLINK_LOAD_RETRIES := 3.
Definition PAGE_LOAD_RETRIES := 3.
Definition FINAL_LOAD_RETRIES := 2.
Definition BASE_DOMAIN : string := "https://vegamoviesog.city".

Section WithEnv.
Variable E : env.

(** [for attempt in range(k, ...): try: goto; content; break; except: ...] *)
Fixpoint load_attempts (url : string) (k fuel : nat) : M (option string) :=
  match fuel with
  | 0 => mret None
  | S f =>
      emit (EGoto url);;
      match goto E url k with
      | Some c => mret (Some c)
      | None => load_attempts url (S k) f
      end
  end.

(** The retry loop followed by [if not html: html = fetch_text_requests(url)]. *)
Definition load_page (url : string) (retries : nat) : M (option string) :=
  h ← load_attempts url 1 retries;
  if Py.truthy h then mret h else (emit (EFetch url);; mret (fetch E url)).

Definition any_keyword (text : string) : bool :=
  existsb (fun k => Py.contains k text) ACCEPT_BUTTON_KEYWORDS.

(** The anchor filter of [process_movie]. *)
Definition movie_candidate (a : anchor) : list string :=
  let href := Py.strip (a_href a) in
  let text := Py.lower (a_text a) in
  if negb (Py.startswith "http" href) then []
  else if is_episode text || is_episode href then []
  else if (Py.contains "vgml" (Py.lower href) || Py.contains "vgmlink" (Py.lower href))
          && any_keyword text then [href]
  else if any_keyword text then [href]
  else [].

(** The anchor filter of [extract_final_candidates_from_html]. *)
Definition final_candidate (a : anchor) : list string :=
  let href := Py.strip (a_href a) in
  let text := Py.lower (a_text a) in
  if negb (Py.startswith "http" href) then []
  else if is_episode text || is_episode href then []
  else if existsb (fun h => Py.contains h (Py.lower href)) HOST_PRIORITY || any_keyword text
  then [href]
  else if a_button a then [href]
  else [].

(** "dedupe and preserve order" *)
Fixpoint dedupe (seen : gset string) (l : list string) : list string :=
  match l with
  | [] => []
  | h :: t => if bool_decide (h ∈ seen) then dedupe seen t else h :: dedupe ({[h]} ∪ seen) t
  end.

Definition extract_final_candidates_from_html (html : string) : list string :=
  dedupe ∅ (flat_map final_candidate (d_anchors (parse E html))).

Definition nonempty (o : option string) : bool := Py.truthy o.

(** The final-page title loop; [raw] is [raw_title]. *)
Fixpoint final_title_loop (url : string) (k fuel : nat) (raw : option string)
  : M (option string) :=
  match fuel with
  | 0 => mret raw
  | S f =>
      emit (EGoto url);;
      match final_try E url k with
      | FAOk html ptitle =>
          let h5 := d_h5 (parse E html) in
          let raw' := if nonempty h5 then h5 else if nonempty ptitle then ptitle else raw in
          if Py.truthy raw' then mret raw' else final_title_loop url (S k) f raw'
      | FAExc assigned =>
          let raw' := match assigned with Some t => Some t | None => raw end in
          emit (EFetch url);;
          match fetch E url with
          | Some txt =>
              if Py.truthy (Some txt) then
                let h5 := d_h5 (parse E txt) in
                if nonempty h5 then mret h5 else final_title_loop url (S k) f raw'
              else final_title_loop url (S k) f raw'
          | None => final_title_loop url (S k) f raw'
          end
      end
  end.

(** [raw_page_title or movie_url.split("/")[-2].replace("-", " ")] *)
Definition title_fallback (raw_page_title movie_url : string) : M string :=
  if Py.truthy (Some raw_page_title) then mret raw_page_title
  else
    let parts := Py.split "/" movie_url in
    if 2 <=? length parts then
      match nth_error parts (length parts - 2) with
      | Some p => mret (Py.replace_char "-" " " p)
      | None => raise IndexError
      end
    else raise IndexError.

Definition result_key (title quality : string) : string := title +:+ "||" +:+ quality.

(** One iteration of [for final in finals]. *)
Definition process_final (movie_url raw_page_title : string)
           (saved : gset string) (final : string) : M (gset string) :=
  emit (EResolve final);;
  let resolved := resolve E final in
  raw ← final_title_loop resolved 1 FINAL_LOAD_RETRIES None;
  raw_title ← (match raw with
               | Some (String c t) => mret (String c t)
               | _ => title_fallback raw_page_title movie_url
               end);
  let quality := extract_quality raw_title in
  let title_clean := clean_title raw_title in
  let key := result_key title_clean quality in
  if bool_decide (key ∈ saved) then
    emit (ESkip title_clean quality);; mret saved
  else
    emit (EWrite title_clean quality resolved);; mret ({[key]} ∪ saved).

(** One iteration of [for vgm in candidate_vgms]. *)
Definition process_vgm (movie_url raw_page_title : string)
           (saved : gset string) (vgm : string) : M (gset string) :=
  vhtml ← load_page vgm VGMLINK_LOAD_RETRIES;
  match vhtml with
  | Some (String c t) =>
      match extract_final_candidates_from_html (String c t) with
      | [] => mret saved
      | finals => foldM (process_final movie_url raw_page_title) saved (prefer_links finals)
      end
  | _ => mret saved
  end.

(** [scraped[movie_url] = True; save_scraped()] *)
Definition mark_scraped (u : string) : M unit :=
  (fun s => (Ok tt, {| scraped := <[u := true]> (scraped s); trace := trace s ++ [EMark u] |}));;
  emit ESave.

Definition page_title (d : doc) : string :=
  match d_title d with
  | Some (Some t) => t
  | _ => ""
  end.

(** [process_movie(movie_url, context)] *)
Definition process_movie (movie_url : string) : M unit :=
  emit (EProcess movie_url);;
  html ← load_page movie_url MOVIE_LOAD_RETRIES;
  match html with
  | Some (String c t) =>
      let d := parse E (String c t) in
      let raw_page_title := page_title d in
      let candidate_vgms := dedupe ∅ (flat_map movie_candidate (d_anchors d)) in
      match candidate_vgms with
      | [] => mark_scraped movie_url
      | _ =>
          _ ← foldM (process_vgm movie_url raw_page_title) ∅ candidate_vgms;
          mark_scraped movie_url
      end
  | _ => mark_scraped movie_url
  end.

(** [for movie_url in movie_links: if scraped.get(movie_url): continue; ...] *)
Fixpoint run_movies (links : list string) : M unit :=
  match links with
  | [] => mret tt
  | u :: us =>
      (fun s => match scraped s !! u with
                | Some true => (Ok tt, s)
                | _ => process_movie u s
                end);;
      run_movies us
  end.

Definition Z_to_string (z : Z) : string := NilEmpty.string_of_int (Z.to_int z).

(** [run_scraper(page_list)] *)
Definition run_scraper (page_list : list Z) : M unit :=
  foldM (fun _ page_num =>
           let list_url := BASE_DOMAIN +:+ "/page/" +:+ Z_to_string page_num +:+ "/" in
           list_html ← load_page list_url PAGE_LOAD_RETRIES;
           match list_html with
           | Some (String c t) =>
               let movie_links :=
                 List.filter (fun h => Py.truthy (Some h) && Py.startswith "http" h)
                        (d_entry_hrefs (parse E (String c t))) in
               run_movies movie_links
           | _ => mret tt
           end) tt page_list.

End WithEnv.

End Pipeline.

(* ------------------------------------------------------------------ *)
(** ** Loading the progress ledger: [safe_load_json] *)

Module Ledger.

Local Set Warnings "-register-all".

Inductive json :=
  | JNull
  | JBool (b : bool)
  | JNum (z : Z)
  | JStr (s : string)
  | JArr (l : list json)
  | JObj (l : list (string * json)).

(** What the file system holds at the ledger's path. *)
Inductive fs_entry :=
  | FMissing                    (* os.path.exists(path) is False *)
  | FUnreadable                 (* exists, but open/read raises OSError *)
  | FFile (contents : string).  (* readable, with these contents *)

Section WithParser.
(** [json.load]'s parser: [None] when it raises ([JSONDecodeError],
    a [ValueError]). *)
Variable loads : string -> option json.

(** The [try] block: [Some v] when it returns [v], [None] when it falls
    through to [return {}]. *)
Definition load_body (e : fs_entry) : res (option json) :=
  match e with
  | FMissing => Ok None
  | FUnreadable => Exc OSError
  | FFile c =>
      match loads c with
      | Some v => Ok (Some v)
      | None => Exc ValueError
      end
  end.

(** [try: ... except Exception: ...] followed by [return {}]. *)
Definition safe_load_json (e : fs_entry) : res json :=
  match load_body e with
  | Ok (Some v) => Ok v
  | Ok None => Ok (JObj [])
  | Exc _ => Ok (JObj [])
  end.

End WithParser.

End Ledger.

(* ------------------------------------------------------------------ *)
(** ** Page-range configuration: [parse_pages_input] *)

Module Config.

(** The digits of [int(x)]: ASCII digits, single underscores between
    digits allowed; [seen_digit] says the previous character was a digit. *)
Fixpoint int_digits (l : list ascii) (acc : Z) (seen_digit : bool) : option Z :=
  match l with
  | [] => if seen_digit then Some acc else None
  | c :: r =>
      if is_digit c then int_digits r (10 * acc + Z.of_nat (code c - 48))%Z true
      else if Ascii.eqb c "_" && seen_digit then int_digits r acc false
      else None
  end.

(** [sys.get_int_max_str_digits()]: the default limit on the number of
    digits [int()] converts from a string (Python 3.11 and later). *)
Definition INT_MAX_STR_DIGITS : nat := 4300.

(** [int(x)] for a [str] [x] (base 10): surrounding whitespace, an
    optional sign, then the digits.  [None] when it raises [ValueError]:
    the string is malformed, or it has more than [INT_MAX_STR_DIGITS]
    digits (either way the result is [ValueError], so the order of the
    two checks does not matter). *)
Definition py_int (s : string) : option Z :=
  let l := Py.strip_l (Py.chars s) in
  if INT_MAX_STR_DIGITS <? length (List.filter is_digit l) then None else
  match l with
  | "+"%char :: r => int_digits r 0 false
  | "-"%char :: r => option_map Z.opp (int_digits r 0 false)
  | l => int_digits l 0 false
  end.

(** The elements of [range(a, b)]. *)
Definition py_range (a b : Z) : list Z :=
  map (fun k => (a + Z.of_nat k)%Z) (seq 0 (Z.to_nat (b - a)%Z)).

(** [PY_SSIZE_T_MAX] ([sys.maxsize]) of a 64-bit build. *)
Definition PY_SSIZE_T_MAX : Z := (2 ^ 63 - 1)%Z.

Section WithMemory.

(** The longest list the interpreter manages to allocate and fill; it
    depends on the machine, so it is a parameter. *)
Variable mem_cap : N.

(** [list(range(a, b))]: [list()] first takes [len()] of the range, which
    raises [OverflowError] past [PY_SSIZE_T_MAX]; it then preallocates
    the list, which raises [MemoryError] past [PY_SSIZE_T_MAX / 8]
    pointers, or when the memory runs out ([mem_cap]). *)
Definition py_list_range (a b : Z) : res (list Z) :=
  let n := (b - a)%Z in
  if (PY_SSIZE_T_MAX <? n)%Z then Exc OverflowError
  else if (PY_SSIZE_T_MAX / 8 <? n)%Z || (Z.of_N mem_cap <? n)%Z then Exc MemoryError
  else Ok (py_range a b).

(** [s.split("-", 1)] of a string that contains ["-"]. *)
Fixpoint split_dash (l : list ascii) : list ascii * list ascii :=
  match l with
  | [] => ([], [])
  | c :: r =>
      if Ascii.eqb c "-" then ([], r)
      else let (a, b) := split_dash r in (c :: a, b)
  end.

(** [parse_pages_input(s)]; [None] is Python's [None]. *)
Definition parse_pages_input (s : option string) : res (list Z) :=
  let s := match s with Some (String c t) => String c t | _ => "1" end in
  let s := Py.strip s in
  if Py.contains "-" s then
    let (a, b) := split_dash (Py.chars s) in
    match py_int (Py.of_chars a) with
    | None => Exc ValueError
    | Some x =>
        match py_int (Py.of_chars b) with
        | None => Exc ValueError
        | Some y => py_list_range x (y + 1)%Z
        end
    end
  else
    match py_int s with
    | Some n => Ok [n]
    | None => Exc ValueError
    end.

End WithMemory.

End Config.

(* ------------------------------------------------------------------ *)
(** ** A concrete site used by the witnesses and counterexamples

    One detail page with two intermediary links ("Download 1080p"), each
    intermediary page listing one gdtot link; the two final pages carry
    the [h5] titles [h1] and [h2] ([None]: the final page fails to load
    and the [requests] fallback fails too). *)

Module Demo.
Import Pipeline.

Definition no_doc : doc :=
  {| d_title := None; d_anchors := []; d_h5 := None; d_entry_hrefs := [] |}.

Definition mk_anchor (h t : string) : anchor :=
  {| a_href := h; a_text := t; a_button := false |}.

Definition VGM1 : string := "https://vgmlinks.example/1".
Definition VGM2 : string := "https://vgmlinks.example/2".
Definition FIN1 : string := "https://gdtot.example/a".
Definition FIN2 : string := "https://gdtot.example/b".

Definition site (movie_url : string) (ptitle : option (option string))
           (h1 h2 : option string) : env :=
  {| goto := fun u _ =>
       if String.eqb u movie_url then Some "MOVIE"
       else if String.eqb u VGM1 then Some "V1"
       else if String.eqb u VGM2 then Some "V2"
       else None;
     fetch := fun _ => None;
     parse := fun h =>
       if String.eqb h "MOVIE" then
         {| d_title := ptitle;
            d_anchors := [mk_anchor VGM1 "Download 1080p"; mk_anchor VGM2 "Download 1080p"];
            d_h5 := None; d_entry_hrefs := [] |}
       else if String.eqb h "V1" then
         {| d_title := None; d_anchors := [mk_anchor FIN1 "1080p"]; d_h5 := None; d_entry_hrefs := [] |}
       else if String.eqb h "V2" then
         {| d_title := None; d_anchors := [mk_anchor FIN2 "1080p"]; d_h5 := None; d_entry_hrefs := [] |}
       else if String.eqb h "F1" then
         {| d_title := None; d_anchors := []; d_h5 := h1; d_entry_hrefs := [] |}
       else if String.eqb h "F2" then
         {| d_title := None; d_anchors := []; d_h5 := h2; d_entry_hrefs := [] |}
       else no_doc;
     resolve := fun u => u;
     final_try := fun u _ =>
       if String.eqb u FIN1 then (match h1 with Some _ => FAOk "F1" None | None => FAExc None end)
       else if String.eqb u FIN2 then (match h2 with Some _ => FAOk "F2" None | None => FAExc None end)
       else FAExc None |}.

Definition st0 : st := {| scraped := ∅; trace := [] |}.

Definition writes (l : list event) : list (string * string * string) :=
  flat_map (fun e => match e with EWrite t q u => [(t, q, u)] | _ => [] end) l.

(** [e] with a listing page at [BASE_DOMAIN/page/1/] whose entry links
    are [links]. *)
Definition listing (e : env) (links : list string) : env :=
  {| goto := fun u k =>
       if String.eqb u "https://vegamoviesog.city/page/1/" then Some "LIST" else goto e u k;
     fetch := fetch e;
     parse := fun h =>
       if String.eqb h "LIST" then
         {| d_title := None; d_anchors := []; d_h5 := None; d_entry_hrefs := links |}
       else parse e h;
     resolve := resolve e;
     final_try := final_try e |}.

(** A site whose first page load fails and whose later loads give
    ["PAGE"]; the requests fallback gives ["FETCHED"]. *)
Definition flaky : env :=
  {| goto := fun _ k => if k <? 2 then None else Some "PAGE";
     fetch := fun _ => Some "FETCHED";
     parse := fun _ => no_doc;
     resolve := fun u => u;
     final_try := fun _ _ => FAExc None |}.

End Demo.

(* ------------------------------------------------------------------ *)
(** ** Statements of the claims: auxiliary definitions *)

Module Specs.

(** Order and rank classes of a sort key. *)
Definition le_key (key : string -> nat) (a b : string) : Prop := key a <= key b.
Definition rank_is (key : string -> nat) (r : nat) (x : string) : bool := key x =? r.

(** The rank the claim C7 describes: the first host occurring in the URL
    as written (no lower-casing). *)
Definition claim_score (h : string) : nat := score_from h 0 HOST_PRIORITY.

(** [w] occurs case-insensitively at the front of [l]. *)
Fixpoint ci_prefix (w l : list ascii) : bool :=
  match w, l with
  | [], _ => true
  | c :: w', d :: l' => chr_eq true c d && ci_prefix w' l'
  | _ :: _, [] => false
  end.

Definition QUALITY_TAGS : list string := ["2160p"; "1080p"; "720p"; "480p"; "360p"].

(** The first tag of the list occurring at the front of [l]. *)
Definition tag_at (l : list ascii) : option string :=
  find (fun t => ci_prefix (Py.chars t) l) QUALITY_TAGS.

(** Scan positions left to right for the first one where a tag occurs. *)
Fixpoint first_tag (l : list ascii) : option (nat * string) :=
  match tag_at l with
  | Some t => Some (0, t)
  | None =>
      match l with
      | [] => None
      | _ :: l' => option_map (fun '(i, t) => (S i, t)) (first_tag l')
      end
  end.

(** C4 as amended: the leftmost case-insensitive tag (the first of the
    list at that position), else ["Unknown"]. *)
Definition quality_spec (text : string) : string :=
  match first_tag (Py.chars text) with
  | Some (_, t) => t
  | None => "Unknown"
  end.

(** [c] satisfies [f] at position [j] of [s]. *)
Definition char_is (f : ascii -> bool) (s : list ascii) (j : nat) : bool :=
  match nth_error s j with Some d => f d | None => false end.

(** The word [w], case-insensitively, between two word boundaries. *)
Definition word_marker (w : string) (s : list ascii) (i : nat) : bool :=
  boundary s i && ci_prefix (Py.chars w) (skipn i s) && boundary s (length (Py.chars w) + i).

(** [s], 1-2 digits, [e], 1-2 digits, case-insensitively, between two
    word boundaries. *)
Definition season_episode_at (s : list ascii) (i : nat) : bool :=
  boundary s i && char_is (chr_eq true "s") s i &&
  existsb (fun d : nat * nat =>
             let (d1, d2) := d in
             forallb (fun k => char_is is_digit s (1 + k + i)) (seq 0 d1) &&
             char_is (chr_eq true "e") s (1 + d1 + i) &&
             forallb (fun k => char_is is_digit s (2 + d1 + k + i)) (seq 0 d2) &&
             boundary s (2 + d1 + d2 + i))
          [(1, 1); (1, 2); (2, 1); (2, 2)].

(** C6 as amended: an episode marker starts at position [i]: the word
    "ep", "ep" followed by a dot, the word "episode", or an SxxExx tag. *)
Definition episode_marker_at (s : list ascii) (i : nat) : bool :=
  word_marker "ep" s i ||
  (boundary s i && ci_prefix (Py.chars "ep.") (skipn i s)) ||
  word_marker "episode" s i ||
  season_episode_at s i.

Definition episode_spec (text : string) : bool :=
  match text with
  | EmptyString => false
  | _ => existsb (episode_marker_at (Py.chars text)) (seq 0 (S (length (Py.chars text))))
  end.

(** The end positions of the matches of a star-free pattern at [i], in
    the order the backtracking matcher tries them. *)
Fixpoint ends (ci : bool) (s : list ascii) (r : regex) (i : nat) : list nat :=
  match r with
  | RChr c => if char_is (chr_eq ci c) s i then [S i] else []
  | RAny => if char_is (fun d => negb (Ascii.eqb d nl)) s i then [S i] else []
  | RCls f => if char_is f s i then [S i] else []
  | RBnd => if boundary s i then [i] else []
  | REol => if at_eol s i then [i] else []
  | REps => [i]
  | RCat r1 r2 => flat_map (ends ci s r2) (ends ci s r1 i)
  | RAlt r1 r2 => ends ci s r1 i ++ ends ci s r2 i
  | RStar _ _ => []
  end.

Fixpoint star_free (r : regex) : bool :=
  match r with
  | RCat r1 r2 | RAlt r1 r2 => star_free r1 && star_free r2
  | RStar _ _ => false
  | _ => true
  end.

(** The first end position accepted by the continuation. *)
Fixpoint first_some (k : nat -> option nat) (l : list nat) : option nat :=
  match l with
  | [] => None
  | j :: l' => match k j with Some e => Some e | None => first_some k l' end
  end.

(** The value of a decimal numeral. *)
Definition dec_value (ds : list ascii) : Z :=
  fold_left (fun acc c => (10 * acc + Z.of_nat (code c - 48))%Z) ds 0%Z.

(** Events of the page loading and title loops: no ledger action, no
    record. *)
Definition plain (e : Pipeline.event) : bool :=
  match e with
  | Pipeline.EGoto _ | Pipeline.EFetch _ | Pipeline.EResolve _ => true
  | _ => false
  end.

(** Events that are neither the start of a detail page nor a mark. *)
Definition not_mark (e : Pipeline.event) : bool :=
  match e with
  | Pipeline.EMark _ | Pipeline.EProcess _ => false
  | _ => true
  end.

(** [m] leaves the ledger alone and only appends events satisfying [ok]. *)
Definition quiet_by {A} (ok : Pipeline.event -> bool) (m : Pipeline.M A) : Prop :=
  forall s, exists ev,
    snd (m s) = {| Pipeline.scraped := Pipeline.scraped s;
                   Pipeline.trace := Pipeline.trace s ++ ev |} /\
    forallb ok ev = true.

Definition count_mark (u : string) (ev : list Pipeline.event) : nat :=
  length (List.filter (fun e => match e with Pipeline.EMark v => String.eqb v u | _ => false end) ev).

Definition count_process (u : string) (ev : list Pipeline.event) : nat :=
  length (List.filter (fun e => match e with Pipeline.EProcess v => String.eqb v u | _ => false end) ev).

(** Ledger discipline of the events [ev] that lead from [s] to [s']:
    every detail page started is marked exactly as often as it is started,
    at most once, not at all when it was already marked in [s], and it is
    marked in [s'] once its mark was written; marks are never removed. *)
Definition ledger_ok (s : Pipeline.st) (ev : list Pipeline.event) (s' : Pipeline.st) : Prop :=
  forall v,
    count_mark v ev = count_process v ev /\
    count_mark v ev <= 1 /\
    (Pipeline.scraped s !! v = Some true -> count_mark v ev = 0) /\
    (count_mark v ev = 1 -> Pipeline.scraped s' !! v = Some true) /\
    (Pipeline.scraped s !! v = Some true -> Pipeline.scraped s' !! v = Some true).

(** The dedup keys of the records written in [ev], in order. *)
Definition write_keys (ev : list Pipeline.event) : list string :=
  flat_map (fun e => match e with
                     | Pipeline.EWrite t q _ => [Pipeline.result_key t q]
                     | _ => []
                     end) ev.

(** Starting from the keys [K] already written, every record written in
    [ev] has a new key and every skip names a key written before. *)
Fixpoint dedup_ok (K : list string) (ev : list Pipeline.event) : Prop :=
  match ev with
  | [] => True
  | Pipeline.EWrite t q _ :: r =>
      ~ In (Pipeline.result_key t q) K /\ dedup_ok (Pipeline.result_key t q :: K) r
  | Pipeline.ESkip t q :: r => In (Pipeline.result_key t q) K /\ dedup_ok K r
  | _ :: r => dedup_ok K r
  end.

(** [m] changes the ledger only by setting to [true] the pages it marks
    in its events [ev], whatever its outcome, and marks only detail pages
    it started in [ev]. *)
Definition marks_started {A} (m : Pipeline.M A) : Prop :=
  forall s, exists ev,
    Pipeline.trace (snd (m s)) = Pipeline.trace s ++ ev /\
    (forall v, In (Pipeline.EMark v) ev -> Pipeline.scraped (snd (m s)) !! v = Some true) /\
    (forall v, ~ In (Pipeline.EMark v) ev ->
               Pipeline.scraped (snd (m s)) !! v = Pipeline.scraped s !! v) /\
    (forall v, In (Pipeline.EMark v) ev -> In (Pipeline.EProcess v) ev).

(** Every detail page [m] starts (whatever its outcome) satisfies [P]. *)
Definition starts_only {A} (P : string -> Prop) (m : Pipeline.M A) : Prop :=
  forall s, exists ev,
    Pipeline.trace (snd (m s)) = Pipeline.trace s ++ ev /\
    (forall v, In (Pipeline.EProcess v) ev -> P v).

End Specs.

Import Pipeline Demo.
Example d1 : writes (trace (snd (process_movie (site "https://site.example/movie-a/" None (Some "Movie A 1080p") (Some "Movie B 1080p")) "https://site.example/movie-a/" st0))) = [("Movie A 1080P", "1080p", FIN1); ("Movie B 1080P", "1080p", FIN2)].
Proof. vm_compute. reflexivity. Qed.
Example d2 : writes (trace (snd (process_movie (site "https://site.example/movie-a/" None (Some "Movie A 1080p") (Some "Movie A 1080p")) "https://site.example/movie-a/" st0))) = [("Movie A 1080P", "1080p", FIN1)].
Proof. vm_compute. reflexivity. Qed.
Example d3 : let r := process_movie (site "http:x" None None None) "http:x" st0 in
  (match fst r with Exc IndexError => true | _ => false end, scraped (snd r) !! "http:x") = (true, None).
Proof. vm_compute. reflexivity. Qed.
Example d4 : writes (trace (snd (process_movie (site "https://site.example/movie-a/" None (Some "Download") None) "https://site.example/movie-a/" st0))) = [("", "Unknown", FIN1); ("Movie A", "Unknown", FIN2)].
Proof. vm_compute. reflexivity. Qed.
Example c1 : Config.parse_pages_input 1000 (Some " 14-20 ") = Ok [14;15;16;17;18;19;20]%Z. Proof. vm_compute. reflexivity. Qed.
Example c2 : Config.parse_pages_input 1000 (Some "") = Ok [1]%Z /\ Config.parse_pages_input 1000 (Some " ") = Exc ValueError /\ Config.parse_pages_input 1000 (Some "1_0") = Ok [10]%Z /\ Config.parse_pages_input 1000 (Some "1--3") = Ok [] /\ Config.parse_pages_input 1000 (Some "-3") = Exc ValueError /\ Config.parse_pages_input 1000 (Some "3 - 5") = Ok [3;4;5]%Z /\ Config.parse_pages_input 1000 (Some "1__0") = Exc ValueError. Proof. vm_compute. repeat split. Qed.
Example c3 : Config.parse_pages_input 1000 (Some "1-99999999999999999999") = Exc OverflowError /\ Config.parse_pages_input 1000 (Some "1-2000") = Exc MemoryError /\ Config.parse_pages_input 1000 (Some "1-1000") = Ok (Config.py_range 1 1001). Proof. vm_compute. repeat split. Qed.

(* ------------------------------------------------------------------ *)
(** ** Ranking: [prefer_links] *)

Module SortFacts.

Section Key.
Variable key : string -> nat.

Local Abbreviation le_key := (Specs.le_key key).
Local Abbreviation rank_is := (Specs.rank_is key).

Lemma le_key_trans : Transitive le_key.
Proof. unfold le_key. intros a b c; lia. Qed.

Lemma insert_by_perm x l : Permutation (insert_by key x l) (x :: l).
Proof.
  induction l as [|y ys IH]; simpl; [reflexivity|].
  destruct (key x <? key y); [reflexivity|].
  rewrite IH. apply perm_swap.
Qed.

Lemma insert_by_hdrel y x l :
  key y <= key x -> HdRel le_key y l -> HdRel le_key y (insert_by key x l).
Proof.
  intros Hyx Hd. destruct l as [|z zs]; simpl.
  - constructor. exact Hyx.
  - destruct (key x <? key z); constructor; [exact Hyx|].
    inversion Hd; assumption.
Qed.

Lemma insert_by_sorted x l : Sorted le_key l -> Sorted le_key (insert_by key x l).
Proof.
  induction l as [|y ys IH]; intros Hs; simpl.
  - repeat constructor.
  - destruct (key x <? key y) eqn:E.
    + apply Nat.ltb_lt in E. constructor; [exact Hs|].
      constructor. unfold le_key. lia.
    + apply Nat.ltb_ge in E. apply Sorted_inv in Hs as [Hs Hd].
      constructor; [apply IH, Hs|].
      apply insert_by_hdrel; assumption.
Qed.

(** In a sorted list, nothing after a larger head has a smaller rank. *)
Lemma filter_rank_above r y l :
  Sorted le_key (y :: l) -> r < key y -> List.filter (rank_is r) (y :: l) = [].
Proof.
  intros Hs Hr. apply Sorted_StronglySorted in Hs; [|exact le_key_trans].
  apply StronglySorted_inv in Hs as [_ Hall].
  simpl. unfold rank_is at 1. destruct (key y =? r) eqn:E; [apply Nat.eqb_eq in E; lia|].
  induction l as [|z zs IH]; simpl; [reflexivity|].
  inversion Hall as [|? ? Hz Hzs]; subst. unfold le_key in Hz.
  unfold rank_is at 1. destruct (key z =? r) eqn:E2; [apply Nat.eqb_eq in E2; lia|].
  apply IH, Hzs.
Qed.

(** Insertion keeps the elements of each rank in order, the new one last. *)
Lemma insert_by_filter x l r :
  Sorted le_key l ->
  List.filter (rank_is r) (insert_by key x l)
  = List.filter (rank_is r) l ++ (if rank_is r x then [x] else []).
Proof.
  induction l as [|y ys IH]; intros Hs; simpl.
  - destruct (rank_is r x); reflexivity.
  - destruct (key x <? key y) eqn:E.
    + apply Nat.ltb_lt in E. simpl.
      destruct (rank_is r x) eqn:Ex.
      * unfold rank_is in Ex. apply Nat.eqb_eq in Ex.
        assert (Hf : List.filter (rank_is r) (y :: ys) = []).
        { apply filter_rank_above; [exact Hs|lia]. }
        simpl in Hf. rewrite Hf. reflexivity.
      * simpl. rewrite app_nil_r. reflexivity.
    + simpl. apply Sorted_inv in Hs as [Hs _].
      rewrite (IH Hs). destruct (rank_is r y); reflexivity.
Qed.

Lemma sorted_by_aux l acc :
  Sorted le_key acc ->
  Sorted le_key (fold_left (fun a x => insert_by key x a) l acc) /\
  Permutation (fold_left (fun a x => insert_by key x a) l acc) (acc ++ l) /\
  (forall r, List.filter (rank_is r) (fold_left (fun a x => insert_by key x a) l acc)
             = List.filter (rank_is r) acc ++ List.filter (rank_is r) l).
Proof.
  revert acc. induction l as [|x xs IH]; intros acc Hs; simpl.
  - rewrite !app_nil_r. split; [exact Hs|]. split; [reflexivity|].
    intros r. rewrite app_nil_r. reflexivity.
  - destruct (IH (insert_by key x acc) (insert_by_sorted x acc Hs)) as [H1 [H2 H3]].
    split; [exact H1|]. split.
    + rewrite H2. rewrite insert_by_perm.
      rewrite <- Permutation_middle. reflexivity.
    + intros r. rewrite H3, insert_by_filter by exact Hs.
      rewrite <- app_assoc. destruct (rank_is r x); reflexivity.
Qed.

Lemma sorted_by_sorted l : Sorted le_key (sorted_by key l).
Proof. apply (sorted_by_aux l []). constructor. Qed.

Lemma sorted_by_perm l : Permutation (sorted_by key l) l.
Proof. apply (sorted_by_aux l []). constructor. Qed.

Lemma sorted_by_stable l r :
  List.filter (rank_is r) (sorted_by key l) = List.filter (rank_is r) l.
Proof. apply (sorted_by_aux l []). constructor. Qed.

End Key.

End SortFacts.

(** C7 (amended): [prefer_links] orders URLs by the index of the first
    HOST_PRIORITY entry occurring in the lower-cased URL (7 when none
    does): the output is sorted by that rank, the URLs of each rank keep
    their input order (stable sort), and the example list puts the gdtot
    URL first. *)
Theorem prefer_links_rank_stable (links : list string) :
  Sorted (fun a b => score a <= score b) (prefer_links links) /\
  (forall r, List.filter (fun x => score x =? r) (prefer_links links)
             = List.filter (fun x => score x =? r) links) /\
  hd_error (prefer_links ["https://randomhost.com/x"; "https://gdflix.example/y";
                          "https://gdtot.example/z"]) = Some "https://gdtot.example/z".
Proof.
  split; [apply (SortFacts.sorted_by_sorted score)|].
  split; [intros r; apply (SortFacts.sorted_by_stable score)|].
  vm_compute. reflexivity.
Qed.

(** C7 counterexample: the rank is computed on the lower-cased URL, so a
    URL naming GDTOT in capitals is moved before an unranked URL, which a
    case-sensitive substring rank would leave in discovery order. *)
Lemma prefer_links_case_counterexample :
  prefer_links ["https://x.example/a"; "https://GDTOT.example/b"]
    = ["https://GDTOT.example/b"; "https://x.example/a"] /\
  sorted_by Specs.claim_score ["https://x.example/a"; "https://GDTOT.example/b"]
    = ["https://x.example/a"; "https://GDTOT.example/b"].
Proof. split; vm_compute; reflexivity. Qed.

(** C10: [prefer_links] returns a permutation of its input. *)
Theorem prefer_links_permutation (links : list string) :
  Permutation (prefer_links links) links.
Proof. apply SortFacts.sorted_by_perm. Qed.

(* ------------------------------------------------------------------ *)
(** ** The regex matcher on literals and alternations *)

Module MatchFacts.
Import Specs.

Lemma skipn_nth (s : list ascii) (i : nat) :
  skipn i s = match nth_error s i with Some d => d :: skipn (S i) s | None => [] end.
Proof.
  revert i. induction s as [|c s IH]; intros [|i]; simpl; try reflexivity.
  apply IH.
Qed.

Lemma mt_lit_l (w : list ascii) s i k :
  w <> [] ->
  mt true s (lit_l w) i k = if ci_prefix w (skipn i s) then k (i + length w) else None.
Proof.
  revert i. induction w as [|c w IH]; intros i Hw; [congruence|].
  rewrite (skipn_nth s i).
  destruct w as [|c' w'].
  - simpl. destruct (nth_error s i) as [d|]; [|reflexivity].
    rewrite andb_true_r, Nat.add_1_r. reflexivity.
  - change (lit_l (c :: c' :: w')) with (RCat (RChr c) (lit_l (c' :: w'))).
    change (mt true s (RCat (RChr c) (lit_l (c' :: w'))) i k) with
      (match nth_error s i with
       | Some d => if chr_eq true c d then mt true s (lit_l (c' :: w')) (S i) k else None
       | None => None
       end).
    destruct (nth_error s i) as [d|]; [|reflexivity].
    change (ci_prefix (c :: c' :: w') (d :: skipn (S i) s)) with
      (chr_eq true c d && ci_prefix (c' :: w') (skipn (S i) s)).
    destruct (chr_eq true c d); [|reflexivity].
    rewrite IH by discriminate. cbn [andb length].
    replace (S i + S (length w')) with (i + S (S (length w'))) by lia.
    reflexivity.
Qed.

Lemma quality_re_eq : QUALITY_RE = alts (map lit QUALITY_TAGS).
Proof. reflexivity. Qed.

(** An alternation of literals with the final continuation picks the first
    literal that occurs at the position. *)
Lemma mt_alts_lits (ws : list string) s i :
  ws <> [] -> Forall (fun w => Py.chars w <> []) ws ->
  mt true s (alts (map lit ws)) i Some
  = option_map (fun t => i + length (Py.chars t))
               (find (fun t => ci_prefix (Py.chars t) (skipn i s)) ws).
Proof.
  induction ws as [|w ws IH]; intros Hne Hall; [congruence|].
  inversion Hall as [|? ? Hw Hws]; subst.
  destruct ws as [|w2 ws'].
  - simpl alts. unfold lit. rewrite mt_lit_l by exact Hw. simpl find.
    unfold Py.chars. destruct (ci_prefix _ _); reflexivity.
  - change (alts (map lit (w :: w2 :: ws'))) with
      (RAlt (lit w) (alts (map lit (w2 :: ws')))).
    change (mt true s (RAlt (lit w) (alts (map lit (w2 :: ws')))) i Some) with
      (match mt true s (lit w) i Some with
       | Some e => Some e
       | None => mt true s (alts (map lit (w2 :: ws'))) i Some
       end).
    unfold lit at 1. rewrite mt_lit_l by exact Hw.
    change (find (fun t => ci_prefix (Py.chars t) (skipn i s)) (w :: w2 :: ws')) with
      (if ci_prefix (Py.chars w) (skipn i s) then Some w
       else find (fun t => ci_prefix (Py.chars t) (skipn i s)) (w2 :: ws')).
    unfold Py.chars at 1 2.
    destruct (ci_prefix (list_ascii_of_string w) (skipn i s)); [reflexivity|].
    apply IH; [discriminate|exact Hws].
Qed.

Lemma mt_quality s i :
  mt true s QUALITY_RE i Some
  = option_map (fun t => i + length (Py.chars t)) (tag_at (skipn i s)).
Proof.
  rewrite quality_re_eq. unfold tag_at.
  apply mt_alts_lits; [discriminate|].
  repeat constructor; discriminate.
Qed.

Lemma search_from_S ci r s i n :
  search_from ci r s i (S n)
  = match mt ci s r i Some with
    | Some j => Some (i, j)
    | None => search_from ci r s (S i) n
    end.
Proof. reflexivity. Qed.

Lemma first_tag_cons d l :
  first_tag (d :: l)
  = match tag_at (d :: l) with
    | Some t => Some (0, t)
    | None => option_map (fun '(i, t) => (S i, t)) (first_tag l)
    end.
Proof. reflexivity. Qed.

Lemma skipn_S_of (s l : list ascii) d i : skipn i s = d :: l -> skipn (S i) s = l.
Proof. intros Hs. rewrite (skipn_nth s i) in Hs. destruct (nth_error s i); congruence. Qed.

Lemma search_from_quality s l i :
  skipn i s = l ->
  search_from true QUALITY_RE s i (S (length l))
  = option_map (fun '(j, t) => (i + j, i + j + length (Py.chars t))) (first_tag l).
Proof.
  revert i. induction l as [|d l IH]; intros i Hs.
  - rewrite search_from_S, mt_quality, Hs. reflexivity.
  - rewrite search_from_S, mt_quality, Hs, first_tag_cons.
    destruct (tag_at (d :: l)) as [t|]; simpl option_map.
    + rewrite Nat.add_0_r. reflexivity.
    + simpl length. rewrite (IH (S i)) by (eapply skipn_S_of; exact Hs).
      destruct (first_tag l) as [[j t]|]; simpl; [|reflexivity].
      repeat f_equal; lia.
Qed.

Lemma search_quality s :
  search true QUALITY_RE s
  = option_map (fun '(j, t) => (j, j + length (Py.chars t))) (first_tag s).
Proof.
  unfold search. rewrite (search_from_quality s s 0) by reflexivity.
  destruct (first_tag s) as [[j t]|]; reflexivity.
Qed.

(** A case-insensitive occurrence lower-cases to the lower-cased word. *)
Lemma ci_prefix_lower w l :
  ci_prefix w l = true -> map to_lower (firstn (length w) l) = map to_lower w.
Proof.
  revert l. induction w as [|c w IH]; intros l H; [destruct l; reflexivity|].
  destruct l as [|d l]; [discriminate|]. simpl in *.
  apply andb_prop in H as [Hc Hw]. unfold chr_eq in Hc. apply Ascii.eqb_eq in Hc.
  rewrite Hc, (IH l Hw). reflexivity.
Qed.

Lemma tag_at_spec l t : tag_at l = Some t -> ci_prefix (Py.chars t) l = true /\ In t QUALITY_TAGS.
Proof.
  unfold tag_at. intros H. split.
  - apply find_some in H. apply H.
  - apply find_some in H. apply H.
Qed.

Lemma first_tag_spec l j t :
  first_tag l = Some (j, t) -> ci_prefix (Py.chars t) (skipn j l) = true /\ In t QUALITY_TAGS.
Proof.
  revert j. induction l as [|d l IH]; intros j H.
  - simpl in H. discriminate.
  - rewrite first_tag_cons in H. destruct (tag_at (d :: l)) as [t'|] eqn:Ht.
    + injection H as <- <-. apply tag_at_spec, Ht.
    + destruct (first_tag l) as [[j' t']|] eqn:Hf; simpl in H; [|discriminate].
      injection H as <- <-. simpl skipn. apply (IH j'). reflexivity.
Qed.

Lemma quality_tags_lower t : In t QUALITY_TAGS -> map to_lower (Py.chars t) = Py.chars t.
Proof. simpl. intros [<-|[<-|[<-|[<-|[<-|[]]]]]]; reflexivity. Qed.

End MatchFacts.

(** C4 (amended): [extract_quality] returns the leftmost case-insensitive
    occurrence of one of 2160p, 1080p, 720p, 480p, 360p (lower-cased; the
    first of the list when several start at the same place), and
    ["Unknown"] (capital U) when none occurs, empty input included. *)
Theorem extract_quality_first_match (text : string) :
  extract_quality text = Specs.quality_spec text /\
  extract_quality "Movie.2160p.BluRay" = "2160p" /\
  extract_quality "Movie" = "Unknown".
Proof.
  split; [|split; vm_compute; reflexivity].
  unfold extract_quality, Specs.quality_spec.
  destruct text as [|c t]; [reflexivity|].
  set (l := Py.chars (String c t)).
  rewrite MatchFacts.search_quality.
  destruct (Specs.first_tag l) as [[j tg]|] eqn:Hf; [|reflexivity].
  simpl option_map. cbv iota beta.
  apply MatchFacts.first_tag_spec in Hf as [Hp Hin].
  unfold Py.lower, slice. replace (j + length (Py.chars tg) - j) with (length (Py.chars tg)) by lia.
  unfold Py.of_chars, Py.chars at 1. rewrite list_ascii_of_string_of_list_ascii.
  rewrite (MatchFacts.ci_prefix_lower _ _ Hp), (MatchFacts.quality_tags_lower _ Hin).
  unfold Py.chars. apply string_of_list_ascii_of_string.
Qed.

(** C4 counterexample: with no tag the result is ["Unknown"], not
    ["unknown"]. *)
Lemma extract_quality_unknown_counterexample : extract_quality "Movie" <> "unknown".
Proof. vm_compute. discriminate. Qed.

(* ------------------------------------------------------------------ *)
(** ** Episode markers: [is_episode] *)

Module EpisodeFacts.
Import Specs.

Lemma first_some_ext f g l : (forall j, f j = g j) -> first_some f l = first_some g l.
Proof. intros H. induction l as [|j l IH]; simpl; [reflexivity|]. rewrite H, IH. reflexivity. Qed.

Lemma first_some_app k l1 l2 :
  first_some k (l1 ++ l2) = match first_some k l1 with Some e => Some e | None => first_some k l2 end.
Proof. induction l1 as [|j l1 IH]; simpl; [reflexivity|]. destruct (k j); [reflexivity|exact IH]. Qed.

Lemma first_some_flat_map k f l :
  first_some k (flat_map f l) = first_some (fun j => first_some k (f j)) l.
Proof.
  induction l as [|j l IH]; simpl; [reflexivity|].
  rewrite first_some_app, IH. reflexivity.
Qed.

Lemma first_some_single k j : first_some k [j] = k j.
Proof. simpl. destruct (k j); reflexivity. Qed.

(** On star-free patterns the matcher returns the first end position
    its continuation accepts. *)
Lemma mt_ends ci s r : star_free r = true ->
  forall i k, mt ci s r i k = first_some k (ends ci s r i).
Proof.
  induction r as [c| |f| | | |r1 IH1 r2 IH2|r1 IH1 r2 IH2|g r1 IH1]; intros Hsf i k;
    simpl in Hsf |- *; unfold char_is.
  - destruct (nth_error s i); [|reflexivity].
    destruct (chr_eq ci c a); [apply eq_sym, first_some_single|reflexivity].
  - destruct (nth_error s i); [|reflexivity].
    destruct (Ascii.eqb a nl); simpl; [reflexivity|apply eq_sym, first_some_single].
  - destruct (nth_error s i); [|reflexivity].
    destruct (f a); [apply eq_sym, first_some_single|reflexivity].
  - destruct (boundary s i); [apply eq_sym, first_some_single|reflexivity].
  - destruct (at_eol s i); [apply eq_sym, first_some_single|reflexivity].
  - apply eq_sym, first_some_single.
  - apply andb_prop in Hsf as [H1 H2].
    rewrite IH1 by exact H1. rewrite first_some_flat_map.
    apply first_some_ext. intros j. apply IH2, H2.
  - apply andb_prop in Hsf as [H1 H2].
    rewrite IH1, IH2 by assumption. rewrite first_some_app. reflexivity.
  - discriminate.
Qed.

Definition nonnil (l : list nat) : bool := match l with [] => false | _ => true end.

Lemma mt_some ci s r i : star_free r = true ->
  (if mt ci s r i Some then true else false) = nonnil (ends ci s r i).
Proof.
  intros Hsf. rewrite mt_ends by exact Hsf.
  destruct (ends ci s r i); reflexivity.
Qed.

Lemma search_from_some ci r s i n :
  (if search_from ci r s i n then true else false)
  = existsb (fun j => if mt ci s r j Some then true else false) (seq i n).
Proof.
  revert i. induction n as [|n IH]; intros i; simpl; [reflexivity|].
  destruct (mt ci s r i Some); simpl; [reflexivity|]. apply IH.
Qed.

Lemma ends_lit s w i : w <> [] ->
  ends true s (lit_l w) i = if ci_prefix w (skipn i s) then [length w + i] else [].
Proof.
  revert i. induction w as [|c w IH]; intros i Hw; [congruence|].
  rewrite (MatchFacts.skipn_nth s i).
  destruct w as [|c' w'].
  - simpl. unfold char_is. destruct (nth_error s i); [|reflexivity].
    rewrite andb_true_r. reflexivity.
  - change (lit_l (c :: c' :: w')) with (RCat (RChr c) (lit_l (c' :: w'))).
    change (ends true s (RCat (RChr c) (lit_l (c' :: w'))) i) with
      (flat_map (ends true s (lit_l (c' :: w')))
                (if char_is (chr_eq true c) s i then [S i] else [])).
    unfold char_is. destruct (nth_error s i) as [d|]; [|reflexivity].
    change (ci_prefix (c :: c' :: w') (d :: skipn (S i) s)) with
      (chr_eq true c d && ci_prefix (c' :: w') (skipn (S i) s)).
    destruct (chr_eq true c d); [|reflexivity].
    cbn [flat_map andb]. rewrite app_nil_r, IH by discriminate.
    destruct (ci_prefix (c' :: w') (skipn (S i) s)); [|reflexivity].
    f_equal. cbn [length]. lia.
Qed.

Lemma ci_prefix_cons c w s i :
  ci_prefix (c :: w) (skipn i s) = char_is (chr_eq true c) s i && ci_prefix w (skipn (S i) s).
Proof.
  rewrite (MatchFacts.skipn_nth s i). unfold char_is.
  destruct (nth_error s i); reflexivity.
Qed.

Lemma existsb_ext {A} (f g : A -> bool) l :
  (forall x, f x = g x) -> existsb f l = existsb g l.
Proof. intros H. induction l as [|x l IH]; simpl; [reflexivity|]. rewrite H, IH. reflexivity. Qed.

Lemma existsb_orb {A} (f g : A -> bool) l :
  existsb (fun x => f x || g x) l = existsb f l || existsb g l.
Proof.
  induction l as [|x l IH]; simpl; [reflexivity|].
  rewrite IH. destruct (f x), (g x), (existsb f l), (existsb g l); reflexivity.
Qed.

(** Case on the character tests and boundaries, keeping each outcome so
    that occurrences created by later reductions are rewritten alike. *)
Ltac atoms :=
  repeat (cbn [flat_map app andb orb nonnil];
          match goal with
          | H : char_is ?f ?s ?j = _ |- context [char_is ?f ?s ?j] => rewrite H
          | H : boundary ?s ?j = _ |- context [boundary ?s ?j] => rewrite H
          | |- context [char_is ?f ?s ?j] => let E := fresh "E" in destruct (char_is f s j) eqn:E
          | |- context [boundary ?s ?j] => let E := fresh "E" in destruct (boundary s j) eqn:E
          end).

Lemma ep_word s i : nonnil (ends true s (cats [RBnd; lit "ep"; RBnd]) i) = word_marker "ep" s i.
Proof.
  unfold word_marker, lit. cbn [Py.chars list_ascii_of_string].
  rewrite !ci_prefix_cons. cbn -[char_is boundary chr_eq].
  atoms; reflexivity.
Qed.

Lemma ep_dot s i : nonnil (ends true s (cats [RBnd; lit "ep."]) i)
  = boundary s i && ci_prefix (Py.chars "ep.") (skipn i s).
Proof.
  unfold lit. cbn [Py.chars list_ascii_of_string].
  rewrite !ci_prefix_cons. cbn -[char_is boundary chr_eq].
  atoms; reflexivity.
Qed.

Lemma episode_word s i : nonnil (ends true s (cats [RBnd; lit "episode"; RBnd]) i)
  = word_marker "episode" s i.
Proof.
  unfold word_marker, lit. cbn [Py.chars list_ascii_of_string].
  rewrite !ci_prefix_cons. cbn -[char_is boundary chr_eq].
  atoms; reflexivity.
Qed.

Lemma season_episode s i (c1 c2 : ascii) :
  chr_eq true c1 = chr_eq true "s" -> chr_eq true c2 = chr_eq true "e" ->
  nonnil (ends true s (cats [RBnd; RChr c1; rep12 digit; RChr c2; rep12 digit; RBnd]) i)
  = season_episode_at s i.
Proof.
  intros H1 H2. unfold season_episode_at.
  cbn -[char_is boundary chr_eq]. rewrite H1, H2.
  atoms; reflexivity.
Qed.

Lemma existsb_seq_or5 (f1 f2 f3 f4 f5 : nat -> bool) n :
  (forall j, f5 j = f4 j) ->
  existsb f1 (seq 0 n) || (existsb f2 (seq 0 n) || (existsb f3 (seq 0 n) ||
    (existsb f4 (seq 0 n) || (existsb f5 (seq 0 n) || false))))
  = existsb (fun j => f1 j || f2 j || f3 j || f4 j) (seq 0 n).
Proof.
  intros H. rewrite (existsb_ext f5 f4) by (intros; apply H).
  rewrite !existsb_orb.
  destruct (existsb f1 _), (existsb f2 _), (existsb f3 _), (existsb f4 _); reflexivity.
Qed.

End EpisodeFacts.

(** C6 (amended): [is_episode] is true exactly when, case-insensitively,
    the text contains the word "ep", "ep" followed by a dot, the word
    "episode", or s<1-2 digits>e<1-2 digits> as a word; no pattern
    matches a bare season marker.  In particular "S01E04" is episode-like
    and "Season 1 Batch Zip" and "S01" are not. *)
Theorem is_episode_markers (text : string) :
  is_episode text = Specs.episode_spec text /\
  is_episode "S01E04" = true /\
  is_episode "Season 1 Batch Zip" = false /\
  is_episode "S01" = false.
Proof.
  split; [|vm_compute; repeat split].
  destruct text as [|c t]; [reflexivity|].
  unfold is_episode, Specs.episode_spec, EPISODE_PATTERNS.
  set (l := Py.chars (String c t)).
  cbn [existsb]. unfold search.
  rewrite !EpisodeFacts.search_from_some.
  rewrite (EpisodeFacts.existsb_ext
             (fun j => if mt true l (cats [RBnd; lit "ep"; RBnd]) j Some then true else false)
             (fun j => Specs.word_marker "ep" l j))
    by (intros j; rewrite EpisodeFacts.mt_some by reflexivity; apply EpisodeFacts.ep_word).
  rewrite (EpisodeFacts.existsb_ext
             (fun j => if mt true l (cats [RBnd; lit "ep."]) j Some then true else false)
             (fun j => boundary l j && Specs.ci_prefix (Py.chars "ep.") (skipn j l)))
    by (intros j; rewrite EpisodeFacts.mt_some by reflexivity; apply EpisodeFacts.ep_dot).
  rewrite (EpisodeFacts.existsb_ext
             (fun j => if mt true l (cats [RBnd; lit "episode"; RBnd]) j Some then true else false)
             (fun j => Specs.word_marker "episode" l j))
    by (intros j; rewrite EpisodeFacts.mt_some by reflexivity; apply EpisodeFacts.episode_word).
  rewrite (EpisodeFacts.existsb_ext
             (fun j => if mt true l (cats [RBnd; RChr "s"; rep12 digit; RChr "e"; rep12 digit; RBnd])
                            j Some then true else false)
             (fun j => Specs.season_episode_at l j))
    by (intros j; rewrite EpisodeFacts.mt_some by reflexivity;
        apply EpisodeFacts.season_episode; reflexivity).
  rewrite (EpisodeFacts.existsb_ext
             (fun j => if mt true l (cats [RBnd; RChr "S"; rep12 digit; RChr "E"; rep12 digit; RBnd])
                            j Some then true else false)
             (fun j => Specs.season_episode_at l j))
    by (intros j; rewrite EpisodeFacts.mt_some by reflexivity;
        apply EpisodeFacts.season_episode; reflexivity).
  unfold Specs.episode_marker_at.
  apply EpisodeFacts.existsb_seq_or5. reflexivity.
Qed.

(** C6 counterexample: a bare season marker is not episode-like. *)
Lemma is_episode_season_counterexample : is_episode "S01" = false.
Proof. vm_compute. reflexivity. Qed.

(* ------------------------------------------------------------------ *)
(** ** The ledger file and the page range *)

(** C8: [safe_load_json] never raises; when the file is missing,
    unreadable or not parsable, it returns the empty map. *)
Theorem safe_load_json_total (loads : string -> option Ledger.json) (e : Ledger.fs_entry) :
  (exists v, Ledger.safe_load_json loads e = Ok v) /\
  ((e = Ledger.FMissing \/ e = Ledger.FUnreadable \/
    exists c, e = Ledger.FFile c /\ loads c = None) ->
   Ledger.safe_load_json loads e = Ok (Ledger.JObj [])).
Proof.
  split.
  - unfold Ledger.safe_load_json.
    destruct (Ledger.load_body loads e) as [[v|]|x]; eexists; reflexivity.
  - intros [->|[->|[c [-> Hc]]]]; unfold Ledger.safe_load_json, Ledger.load_body;
      [reflexivity|reflexivity|]. rewrite Hc. reflexivity.
Qed.

Lemma safe_load_json_total_witness :
  Ledger.safe_load_json (fun _ => None) (Ledger.FFile "{") = Ok (Ledger.JObj []).
Proof.
  apply (proj2 (safe_load_json_total (fun _ => None) (Ledger.FFile "{"))).
  right. right. exists "{". split; reflexivity.
Defined.

Module ConfigFacts.
Import Config.

Lemma int_digits_value ds acc b :
  ds <> [] -> Forall (fun c => is_digit c = true) ds ->
  int_digits ds acc b = Some (fold_left (fun acc c => (10 * acc + Z.of_nat (code c - 48))%Z) ds acc).
Proof.
  revert acc b. induction ds as [|d ds IH]; intros acc b Hne Hall; [congruence|].
  inversion Hall as [|? ? Hd Hds]; subst. simpl. rewrite Hd.
  destruct ds as [|d' ds']; [reflexivity|].
  apply IH; [discriminate|exact Hds].
Qed.

Lemma digit_not_space c : is_digit c = true -> py_isspace c = false.
Proof.
  unfold is_digit, py_isspace. intros H. apply andb_prop in H as [H1 H2].
  apply Nat.leb_le in H1, H2.
  destruct (9 <=? code c) eqn:E1, (code c <=? 13) eqn:E2, (28 <=? code c) eqn:E3, (code c <=? 32) eqn:E4;
    simpl; try reflexivity; rewrite ?Nat.leb_le, ?Nat.leb_gt in *; lia.
Qed.

Lemma strip_l_id (l : list ascii) c d m :
  l = c :: m -> rev l = d :: rev (removelast l) ->
  py_isspace c = false -> py_isspace d = false -> Py.strip_l l = l.
Proof.
  intros Hl Hr Hc Hd. unfold Py.strip_l.
  rewrite Hl at 1. simpl Py.lstrip_l. rewrite Hc. rewrite <- Hl.
  rewrite Hr. simpl Py.lstrip_l. rewrite Hd. rewrite <- Hr. apply rev_involutive.
Qed.

Lemma rev_last (l : list ascii) d : rev (l ++ [d]) = d :: rev (removelast (l ++ [d])).
Proof. rewrite rev_app_distr, removelast_last. reflexivity. Qed.

Lemma digits_strip (ds : list ascii) :
  ds <> [] -> Forall (fun c => is_digit c = true) ds -> Py.strip_l ds = ds.
Proof.
  intros Hne Hall. destruct ds as [|c m]; [congruence|].
  destruct (exists_last (l := c :: m) ltac:(discriminate)) as [pre [d Heq]].
  assert (Hd : is_digit d = true).
  { rewrite List.Forall_forall in Hall. apply Hall. rewrite Heq. apply in_or_app. right. left. reflexivity. }
  inversion Hall as [|? ? Hc _]; subst.
  apply (strip_l_id _ c d m); [reflexivity| |apply digit_not_space; exact Hc|apply digit_not_space; exact Hd].
  rewrite Heq. apply rev_last.
Qed.

Lemma no_dash_digits ds : Forall (fun c => is_digit c = true) ds -> Py.contains_l ["-"%char] ds = false.
Proof.
  induction 1 as [|c ds Hc Hds IH]; [reflexivity|].
  cbn [Py.contains_l Py.prefix_l]. rewrite IH.
  destruct (Ascii.eqb "-" c) eqn:E; [|reflexivity].
  apply Ascii.eqb_eq in E. subst. discriminate.
Qed.

Lemma dash_contains ds ds' : Py.contains_l ["-"%char] (ds ++ "-"%char :: ds') = true.
Proof.
  induction ds as [|c ds IH]; [reflexivity|].
  cbn [app Py.contains_l]. rewrite IH, orb_true_r. reflexivity.
Qed.

Lemma split_dash_digits ds ds' :
  Forall (fun c => is_digit c = true) ds -> split_dash (ds ++ "-"%char :: ds') = (ds, ds').
Proof.
  induction 1 as [|c ds Hc Hds IH]; simpl; [reflexivity|].
  destruct (Ascii.eqb c "-") eqn:E.
  - apply Ascii.eqb_eq in E. subst. discriminate.
  - rewrite IH. reflexivity.
Qed.

Lemma filter_digits ds :
  Forall (fun c => is_digit c = true) ds -> List.filter is_digit ds = ds.
Proof. induction 1 as [|c ds Hc _ IH]; simpl; [reflexivity|]. rewrite Hc, IH. reflexivity. Qed.

Lemma py_int_too_long ds :
  Forall (fun c => is_digit c = true) ds -> INT_MAX_STR_DIGITS < length ds ->
  py_int (Py.of_chars ds) = None.
Proof.
  intros Hall Hlen. assert (Hne : ds <> []) by (intros ->; simpl in Hlen; lia).
  unfold py_int, Py.chars, Py.of_chars.
  rewrite list_ascii_of_string_of_list_ascii, digits_strip, filter_digits by assumption.
  apply Nat.ltb_lt in Hlen. rewrite Hlen. reflexivity.
Qed.

Lemma py_int_digits ds :
  ds <> [] -> Forall (fun c => is_digit c = true) ds -> length ds <= INT_MAX_STR_DIGITS ->
  py_int (Py.of_chars ds) = Some (Specs.dec_value ds).
Proof.
  intros Hne Hall Hlen. unfold py_int, Py.chars, Py.of_chars.
  rewrite list_ascii_of_string_of_list_ascii, digits_strip, filter_digits by assumption.
  apply Nat.ltb_ge in Hlen. rewrite Hlen.
  destruct ds as [|c m]; [congruence|].
  inversion Hall as [|? ? Hc _]; subst.
  assert (Hcase : int_digits (c :: m) 0 false = Some (Specs.dec_value (c :: m))).
  { apply int_digits_value; assumption. }
  destruct (Ascii.eqb c "+") eqn:Ep; [apply Ascii.eqb_eq in Ep; subst; discriminate|].
  destruct (Ascii.eqb c "-") eqn:Em; [apply Ascii.eqb_eq in Em; subst; discriminate|].
  apply Ascii.eqb_neq in Ep, Em.
  destruct c as [[] [] [] [] [] [] [] []]; try exact Hcase; congruence.
Qed.

Lemma strip_ends (l : list ascii) c m pre d :
  l = c :: m -> l = pre ++ [d] ->
  py_isspace c = false -> py_isspace d = false -> Py.strip_l l = l.
Proof.
  intros Hl Hl' Hc Hd. apply (strip_l_id l c d m Hl); [|exact Hc|exact Hd].
  rewrite Hl'. apply rev_last.
Qed.

Lemma last_digit (ds : list ascii) :
  ds <> [] -> Forall (fun c => is_digit c = true) ds ->
  exists pre d, ds = pre ++ [d] /\ is_digit d = true.
Proof.
  intros Hne Hall. destruct (exists_last Hne) as [pre [d Heq]].
  exists pre, d. split; [exact Heq|].
  rewrite List.Forall_forall in Hall. apply Hall. rewrite Heq.
  apply in_or_app. right. left. reflexivity.
Qed.

Lemma chars_of_chars l : Py.chars (Py.of_chars l) = l.
Proof. apply list_ascii_of_string_of_list_ascii. Qed.

Lemma nonempty_default (l : list ascii) :
  l <> [] ->
  match Py.of_chars l with String c t => String c t | _ => "1"%string end = Py.of_chars l.
Proof. destruct l; [congruence|reflexivity]. Qed.

Lemma strip_of_chars (l : list ascii) :
  Py.strip_l l = l -> Py.strip (Py.of_chars l) = Py.of_chars l.
Proof.
  intros H. unfold Py.strip, Py.chars, Py.of_chars.
  rewrite list_ascii_of_string_of_list_ascii. unfold Py.of_chars in H. rewrite H. reflexivity.
Qed.

Lemma py_range_in a b k : In k (py_range a (b + 1)) <-> (a <= k <= b)%Z.
Proof.
  unfold py_range. rewrite List.in_map_iff. split.
  - intros [n [<- Hn]]. apply in_seq in Hn. lia.
  - intros H. exists (Z.to_nat (k - a)). split; [lia|]. apply in_seq. lia.
Qed.

Lemma parse_digits_gen mem_cap ds :
  ds <> [] -> Forall (fun c => is_digit c = true) ds ->
  parse_pages_input mem_cap (Some (Py.of_chars ds)) =
  match py_int (Py.of_chars ds) with Some n => Ok [n] | None => Exc ValueError end.
Proof.
  intros Hne Hall. unfold parse_pages_input.
  rewrite (nonempty_default _ Hne), strip_of_chars by (apply digits_strip; assumption).
  unfold Py.contains. cbn [Py.chars list_ascii_of_string].
  unfold Py.chars, Py.of_chars. rewrite list_ascii_of_string_of_list_ascii, no_dash_digits by exact Hall.
  reflexivity.
Qed.

Lemma parse_digits mem_cap ds :
  ds <> [] -> Forall (fun c => is_digit c = true) ds -> length ds <= INT_MAX_STR_DIGITS ->
  parse_pages_input mem_cap (Some (Py.of_chars ds)) = Ok [Specs.dec_value ds].
Proof.
  intros Hne Hall Hlen. rewrite parse_digits_gen by assumption.
  rewrite py_int_digits by assumption. reflexivity.
Qed.

Lemma parse_digits_too_long mem_cap ds :
  Forall (fun c => is_digit c = true) ds -> INT_MAX_STR_DIGITS < length ds ->
  parse_pages_input mem_cap (Some (Py.of_chars ds)) = Exc ValueError.
Proof.
  intros Hall Hlen. assert (Hne : ds <> []) by (intros ->; simpl in Hlen; lia).
  rewrite parse_digits_gen by assumption.
  rewrite py_int_too_long by assumption. reflexivity.
Qed.

Lemma parse_range mem_cap ds ds' :
  ds <> [] -> ds' <> [] ->
  Forall (fun c => is_digit c = true) ds -> Forall (fun c => is_digit c = true) ds' ->
  length ds <= INT_MAX_STR_DIGITS -> length ds' <= INT_MAX_STR_DIGITS ->
  parse_pages_input mem_cap (Some (Py.of_chars (ds ++ "-"%char :: ds'))) =
  py_list_range mem_cap (Specs.dec_value ds) (Specs.dec_value ds' + 1).
Proof.
  intros Hne Hne' Hall Hall' Hlen Hlen'.
  assert (Hl : ds ++ "-"%char :: ds' <> []) by (destruct ds; discriminate).
  assert (Hs : Py.strip_l (ds ++ "-"%char :: ds') = ds ++ "-"%char :: ds').
  { destruct ds as [|c m]; [congruence|].
    destruct (last_digit ds' Hne' Hall') as [pre [d [Hd Hdd]]].
    inversion Hall as [|? ? Hc _]; subst.
    apply (strip_ends _ c (m ++ "-"%char :: pre ++ [d]) ((c :: m) ++ "-"%char :: pre) d);
      [reflexivity| |apply digit_not_space; exact Hc|apply digit_not_space; exact Hdd].
    rewrite <- app_assoc. reflexivity. }
  unfold parse_pages_input.
  rewrite (nonempty_default _ Hl), (strip_of_chars _ Hs).
  unfold Py.contains. rewrite !chars_of_chars.
  change (Py.chars "-") with ["-"%char].
  rewrite dash_contains, split_dash_digits by exact Hall.
  rewrite !py_int_digits by assumption. reflexivity.
Qed.

Lemma parse_raises mem_cap s e :
  parse_pages_input mem_cap s = Exc e -> e = ValueError \/ e = OverflowError \/ e = MemoryError.
Proof.
  unfold parse_pages_input, py_list_range. intros H. repeat case_match; simplify_eq; tauto.
Qed.

End ConfigFacts.

(** C9 (amended).  [parse_pages_input] maps [None] and [""] to [[1]];
    a numeral [N] of at most 4300 decimal digits gives [[N]], a longer one
    [ValueError] (the digit limit of [int()]); [N-M] with such numerals
    gives [list(range(N, M + 1))], whose elements are exactly the integers
    from [N] to [M], unless the range has more than [sys.maxsize]
    elements ([OverflowError]) or the list does not fit in memory
    ([MemoryError]); and the only exceptions it raises are [ValueError],
    [OverflowError] and [MemoryError]. *)
Theorem parse_pages_input_forms (mem_cap : N) (ds ds' : list ascii)
  (Hne : ds <> []) (Hne' : ds' <> [])
  (Hd : Forall (fun c => is_digit c = true) ds)
  (Hd' : Forall (fun c => is_digit c = true) ds')
  (Hlen : length ds <= Config.INT_MAX_STR_DIGITS)
  (Hlen' : length ds' <= Config.INT_MAX_STR_DIGITS) :
  Config.parse_pages_input mem_cap None = Ok [1%Z] /\
  Config.parse_pages_input mem_cap (Some "") = Ok [1%Z] /\
  Config.parse_pages_input mem_cap (Some (Py.of_chars ds)) = Ok [Specs.dec_value ds] /\
  Config.parse_pages_input mem_cap (Some (Py.of_chars (ds ++ "-"%char :: ds'))) =
    (let n := (Specs.dec_value ds' + 1 - Specs.dec_value ds)%Z in
     if (Config.PY_SSIZE_T_MAX <? n)%Z then Exc OverflowError
     else if (Config.PY_SSIZE_T_MAX / 8 <? n)%Z || (Z.of_N mem_cap <? n)%Z then Exc MemoryError
     else Ok (Config.py_range (Specs.dec_value ds) (Specs.dec_value ds' + 1))) /\
  (forall k, In k (Config.py_range (Specs.dec_value ds) (Specs.dec_value ds' + 1)) <->
             (Specs.dec_value ds <= k <= Specs.dec_value ds')%Z) /\
  (forall ds'', Forall (fun c => is_digit c = true) ds'' ->
     Config.INT_MAX_STR_DIGITS < length ds'' ->
     Config.parse_pages_input mem_cap (Some (Py.of_chars ds'')) = Exc ValueError) /\
  (forall s e, Config.parse_pages_input mem_cap s = Exc e ->
     e = ValueError \/ e = OverflowError \/ e = MemoryError).
Proof.
  split; [reflexivity|]. split; [reflexivity|].
  split; [apply ConfigFacts.parse_digits; assumption|].
  split; [apply ConfigFacts.parse_range; assumption|].
  split; [intros k; apply ConfigFacts.py_range_in|].
  split; [intros ds'' H1 H2; apply ConfigFacts.parse_digits_too_long; assumption|].
  apply ConfigFacts.parse_raises.
Qed.

Lemma parse_pages_input_forms_witness :
  Config.parse_pages_input 1000 (Some "14-20") =
    Ok [14; 15; 16; 17; 18; 19; 20]%Z /\
  Config.parse_pages_input 1000 (Some "14") = Ok [14%Z].
Proof.
  destruct (parse_pages_input_forms 1000 ["1"; "4"]%char ["2"; "0"]%char)
    as (_ & _ & H1 & H2 & _ & _);
    [discriminate | discriminate | repeat constructor | repeat constructor
    | apply Nat.leb_le; vm_compute; reflexivity | apply Nat.leb_le; vm_compute; reflexivity |].
  split; [etransitivity; [exact H2|vm_compute; reflexivity] | exact H1].
Defined.

(** C9 counterexample: the empty expression is not of the form [N] or
    [N-M], yet it is accepted as page 1; spaces around the dash and an
    underscore inside a numeral are accepted too; and the well-formed
    range [1-99999999999999999999] raises [OverflowError] (here with
    memory for 1024 pages). *)
Lemma parse_pages_input_empty_counterexample :
  Config.parse_pages_input 1024 (Some "") = Ok [1%Z] /\
  Config.parse_pages_input 1024 (Some " 3 - 5 ") = Ok [3; 4; 5]%Z /\
  Config.parse_pages_input 1024 (Some "1_0") = Ok [10%Z] /\
  Config.parse_pages_input 1024 (Some "1-99999999999999999999") = Exc OverflowError.
Proof. vm_compute. repeat split. Qed.

(* ------------------------------------------------------------------ *)
(** ** The pipeline monad: framing lemmas *)

Module PipeFacts.
Import Pipeline Specs.

Lemma bind_eq {A B} (m : M A) (f : A -> M B) s :
  (m ≫= f) s = match m s with (Ok a, s') => f a s' | (Exc e, s') => (Exc e, s') end.
Proof. reflexivity. Qed.

Lemma quiet_run {A} ok (m : M A) s : quiet_by ok m ->
  exists r ev, m s = (r, {| scraped := scraped s; trace := trace s ++ ev |}) /\
               forallb ok ev = true.
Proof.
  intros Hq. destruct (Hq s) as [ev [He Hok]]. exists (fst (m s)), ev.
  split; [|exact Hok]. rewrite <- He. destruct (m s); reflexivity.
Qed.

Lemma quiet_ret {A} ok (a : A) : quiet_by ok (mret a).
Proof.
  intros s. exists []. split; [|reflexivity].
  rewrite app_nil_r. destruct s; reflexivity.
Qed.

Lemma quiet_raise {A} ok e : quiet_by ok (raise (A := A) e).
Proof.
  intros s. exists []. split; [|reflexivity].
  rewrite app_nil_r. destruct s; reflexivity.
Qed.

Lemma quiet_emit ok e : ok e = true -> quiet_by ok (emit e).
Proof. intros H s. exists [e]. simpl. rewrite H. split; reflexivity. Qed.

Lemma quiet_bind {A B} ok (m : M A) (f : A -> M B) :
  quiet_by ok m -> (forall a, quiet_by ok (f a)) -> quiet_by ok (m ≫= f).
Proof.
  intros Hm Hf s. destruct (quiet_run ok m s Hm) as [r [ev [He Hok]]].
  rewrite bind_eq, He. destruct r as [a|e].
  - destruct (Hf a {| scraped := scraped s; trace := trace s ++ ev |}) as [ev' [He' Hok']].
    exists (ev ++ ev'). rewrite He'. simpl. rewrite app_assoc.
    split; [reflexivity|]. rewrite forallb_app, Hok, Hok'. reflexivity.
  - exists ev. split; [reflexivity|exact Hok].
Qed.

Lemma quiet_foldM {A B} ok (f : A -> B -> M A) a l :
  (forall a x, quiet_by ok (f a x)) -> quiet_by ok (foldM f a l).
Proof.
  intros Hf. revert a. induction l as [|x l IH]; intros a; simpl.
  - apply quiet_ret.
  - apply quiet_bind; [apply Hf|]. intros a'. apply IH.
Qed.

Ltac quiet_step Hok :=
  first [ apply quiet_ret | apply quiet_raise
        | (apply quiet_emit; first [reflexivity | apply Hok; reflexivity])
        | (apply quiet_bind; [|intros ?])
        | progress cbv zeta
        | case_match ].

Section Env.
Variable E : env.
Variable ok : event -> bool.
Hypothesis Hok : forall e, plain e = true -> ok e = true.

Lemma load_attempts_quiet url k fuel : quiet_by ok (load_attempts E url k fuel).
Proof.
  revert k. induction fuel as [|f IH]; intros k; simpl; repeat quiet_step Hok; apply IH.
Qed.

Lemma load_page_quiet url r : quiet_by ok (load_page E url r).
Proof.
  unfold load_page. apply quiet_bind; [apply load_attempts_quiet|intros h].
  repeat quiet_step Hok.
Qed.

Lemma final_title_loop_quiet url k fuel raw : quiet_by ok (final_title_loop E url k fuel raw).
Proof.
  revert k raw. induction fuel as [|f IH]; intros k raw; simpl; repeat quiet_step Hok; apply IH.
Qed.

Lemma title_fallback_quiet t u : quiet_by ok (title_fallback t u).
Proof. unfold title_fallback. repeat quiet_step Hok. Qed.

End Env.

Lemma plain_not_mark e : plain e = true -> not_mark e = true.
Proof. destruct e; simpl; congruence. Qed.

Lemma plain_plain e : plain e = true -> plain e = true.
Proof. exact id. Qed.

Section Movie.
Variable E : env.

Lemma process_final_quiet mu rpt saved f :
  quiet_by not_mark (process_final E mu rpt saved f).
Proof.
  unfold process_final.
  apply quiet_bind; [apply quiet_emit; reflexivity|intros _].
  apply quiet_bind; [apply (final_title_loop_quiet E _ plain_not_mark)|intros raw].
  apply quiet_bind.
  - destruct raw as [[|c t]|];
      first [apply quiet_ret | eapply title_fallback_quiet; exact plain_not_mark].
  - intros raw_title. repeat quiet_step plain_not_mark.
Qed.

Lemma process_vgm_quiet mu rpt saved v :
  quiet_by not_mark (process_vgm E mu rpt saved v).
Proof.
  unfold process_vgm.
  apply quiet_bind; [apply (load_page_quiet E _ plain_not_mark)|intros vhtml].
  repeat case_match; first [apply quiet_ret | apply quiet_foldM; apply process_final_quiet].
Qed.

Lemma mark_scraped_eq u s :
  mark_scraped u s =
  (Ok tt, {| scraped := <[u := true]> (scraped s); trace := trace s ++ [EMark u; ESave] |}).
Proof. unfold mark_scraped. rewrite bind_eq. unfold emit. simpl. rewrite <- app_assoc. reflexivity. Qed.

Ltac marked ev Hev :=
  rewrite mark_scraped_eq; exists ev; simpl;
  rewrite <- !app_assoc; split; [reflexivity|split; [exact Hev|reflexivity]].

(** The shape of one call of [process_movie]. *)
Lemma process_movie_shape u s :
  match process_movie E u s with
  | (Ok _, s') =>
      exists body, trace s' = trace s ++ EProcess u :: body ++ [EMark u; ESave] /\
                   forallb not_mark body = true /\
                   scraped s' = <[u := true]> (scraped s)
  | (Exc _, s') =>
      exists body, trace s' = trace s ++ EProcess u :: body /\
                   forallb not_mark body = true /\ scraped s' = scraped s
  end.
Proof.
  unfold process_movie. rewrite bind_eq.
  change (emit (EProcess u) s)
    with (Ok tt, {| scraped := scraped s; trace := trace s ++ [EProcess u] |}).
  cbv beta iota. rewrite bind_eq.
  destruct (quiet_run _ _ {| scraped := scraped s; trace := trace s ++ [EProcess u] |}
              (load_page_quiet E _ plain_not_mark u MOVIE_LOAD_RETRIES))
    as [r [ev [He Hev]]].
  rewrite He. simpl scraped. simpl trace.
  destruct r as [html|e].
  2:{ exists ev. rewrite <- app_assoc. split; [reflexivity|split; [exact Hev|reflexivity]]. }
  destruct html as [[|c t]|]; [marked ev Hev| |marked ev Hev].
  cbv zeta. destruct (dedupe ∅ _) as [|x l]; [marked ev Hev|].
  rewrite bind_eq.
  match goal with
  | |- context [foldM ?f ?a ?l ?s0] =>
      destruct (quiet_run _ _ s0 (quiet_foldM not_mark f a l (process_vgm_quiet _ _)))
        as [r2 [ev2 [He2 Hev2]]]; rewrite He2
  end.
  destruct r2 as [saved|e]; cbv beta iota.
  - rewrite mark_scraped_eq. exists (ev ++ ev2). simpl.
    rewrite <- !app_assoc. split; [reflexivity|]. split; [|reflexivity].
    rewrite forallb_app, Hev, Hev2. reflexivity.
  - exists (ev ++ ev2). simpl. rewrite <- !app_assoc. split; [reflexivity|]. split; [|reflexivity].
    rewrite forallb_app, Hev, Hev2. reflexivity.
Qed.

End Movie.

Lemma count_mark_app v a b : count_mark v (a ++ b) = count_mark v a + count_mark v b.
Proof. unfold count_mark. rewrite List.filter_app, length_app. reflexivity. Qed.

Lemma count_process_app v a b : count_process v (a ++ b) = count_process v a + count_process v b.
Proof. unfold count_process. rewrite List.filter_app, length_app. reflexivity. Qed.

Lemma count_not_mark v ev :
  forallb not_mark ev = true -> count_mark v ev = 0 /\ count_process v ev = 0.
Proof.
  induction ev as [|e ev IH]; [split; reflexivity|].
  simpl. intros H. apply andb_prop in H as [He Hev].
  destruct (IH Hev) as [H1 H2].
  destruct e; simpl in He; try discriminate; unfold count_mark, count_process in *; simpl;
    split; assumption.
Qed.

Lemma ledger_ok_quiet s ev s' :
  forallb not_mark ev = true -> scraped s' = scraped s -> ledger_ok s ev s'.
Proof.
  intros Hev Hs v. destruct (count_not_mark v ev Hev) as [H1 H2].
  rewrite H1, H2, Hs. repeat split; intros; auto; lia.
Qed.

Lemma ledger_ok_trans s1 ev1 s2 ev2 s3 :
  ledger_ok s1 ev1 s2 -> ledger_ok s2 ev2 s3 -> ledger_ok s1 (ev1 ++ ev2) s3.
Proof.
  intros H1 H2 v. destruct (H1 v) as (A1 & B1 & C1 & D1 & F1).
  destruct (H2 v) as (A2 & B2 & C2 & D2 & F2).
  rewrite count_mark_app, count_process_app.
  split; [lia|]. split.
  { destruct (count_mark v ev1) as [|[|n]] eqn:Hc; [lia| |lia].
    rewrite C2 by (apply D1; reflexivity). lia. }
  split; [intros Hs; rewrite C1, C2 by auto; reflexivity|].
  split; [|auto].
  intros Hc. destruct (count_mark v ev2) as [|n] eqn:Hc2.
  - apply F2, D1. lia.
  - apply D2. lia.
Qed.

Lemma ledger_ok_movie s u body s' :
  scraped s !! u <> Some true -> forallb not_mark body = true ->
  scraped s' = <[u := true]> (scraped s) ->
  ledger_ok s (EProcess u :: body ++ [EMark u; ESave]) s'.
Proof.
  intros Hu Hb Hs v. destruct (count_not_mark v body Hb) as [H1 H2].
  change (EProcess u :: body ++ [EMark u; ESave]) with ([EProcess u] ++ body ++ [EMark u] ++ [ESave]).
  rewrite !count_mark_app, !count_process_app, H1, H2.
  unfold count_mark, count_process. simpl.
  destruct (String.eqb u v) eqn:Huv.
  - apply String.eqb_eq in Huv. subst v. simpl.
    repeat split; intros; try lia; try congruence. rewrite Hs. apply lookup_insert_eq.
  - apply String.eqb_neq in Huv. simpl.
    repeat split; intros; try lia.
    rewrite Hs, lookup_insert_ne by congruence. assumption.
Qed.

(** A computation that, when it returns normally, keeps the ledger
    discipline. *)
Definition ledger_step {A} (m : M A) : Prop :=
  forall s a, fst (m s) = Ok a ->
  exists ev, trace (snd (m s)) = trace s ++ ev /\ ledger_ok s ev (snd (m s)).

Lemma ledger_step_quiet {A} (m : M A) : quiet_by not_mark m -> ledger_step m.
Proof.
  intros Hq s a _. destruct (Hq s) as [ev [He Hev]].
  exists ev. rewrite He. split; [reflexivity|]. apply ledger_ok_quiet; [exact Hev|reflexivity].
Qed.

Lemma ledger_step_bind {A B} (m : M A) (f : A -> M B) :
  ledger_step m -> (forall a, ledger_step (f a)) -> ledger_step (m ≫= f).
Proof.
  intros Hm Hf s b. rewrite !bind_eq.
  destruct (m s) as [[a|e] s1] eqn:Hms; [|discriminate].
  intros Hb. destruct (Hm s a) as [ev1 [Ht1 Hl1]]; [rewrite Hms; reflexivity|].
  rewrite Hms in Ht1, Hl1. simpl in Ht1, Hl1.
  destruct (Hf a s1 b Hb) as [ev2 [Ht2 Hl2]].
  exists (ev1 ++ ev2). rewrite Ht2, Ht1, app_assoc. split; [reflexivity|].
  eapply ledger_ok_trans; eassumption.
Qed.

Lemma ledger_step_foldM {A B} (f : A -> B -> M A) a l :
  (forall a x, ledger_step (f a x)) -> ledger_step (foldM f a l).
Proof.
  intros Hf. revert a. induction l as [|x l IH]; intros a; simpl.
  - apply ledger_step_quiet, quiet_ret.
  - apply ledger_step_bind; [apply Hf|]. intros a'. apply IH.
Qed.

Section Run.
Variable E : env.

Lemma ledger_step_movie u :
  ledger_step (fun s => match scraped s !! u with
                        | Some true => (Ok tt, s)
                        | _ => process_movie E u s
                        end).
Proof.
  intros s a. destruct (scraped s !! u) as [[|]|] eqn:Hu.
  - intros _. exists []. rewrite app_nil_r. split; [reflexivity|].
    apply ledger_ok_quiet; reflexivity.
  - pose proof (process_movie_shape E u s) as Hs.
    destruct (process_movie E u s) as [[x|e] s1]; [|discriminate]. intros _.
    destruct Hs as [body (Ht & Hb & Hsc)].
    exists (EProcess u :: body ++ [EMark u; ESave]). split; [exact Ht|].
    apply ledger_ok_movie; [rewrite Hu; discriminate|exact Hb|exact Hsc].
  - pose proof (process_movie_shape E u s) as Hs.
    destruct (process_movie E u s) as [[x|e] s1]; [|discriminate]. intros _.
    destruct Hs as [body (Ht & Hb & Hsc)].
    exists (EProcess u :: body ++ [EMark u; ESave]). split; [exact Ht|].
    apply ledger_ok_movie; [rewrite Hu; discriminate|exact Hb|exact Hsc].
Qed.

Lemma ledger_step_run_movies links : ledger_step (run_movies E links).
Proof.
  induction links as [|u us IH]; simpl.
  - apply ledger_step_quiet, quiet_ret.
  - apply ledger_step_bind; [apply ledger_step_movie|intros _; exact IH].
Qed.

Lemma ledger_step_run_scraper pages : ledger_step (run_scraper E pages).
Proof.
  unfold run_scraper. apply ledger_step_foldM. intros _ page_num.
  apply ledger_step_bind.
  - apply ledger_step_quiet, (load_page_quiet E _ plain_not_mark).
  - intros h. destruct h as [[|c t]|];
      first [apply ledger_step_quiet, quiet_ret | apply ledger_step_run_movies].
Qed.

End Run.

End PipeFacts.


(* ------------------------------------------------------------------ *)
(** ** The per-detail dedup set *)

Module DedupFacts.
Import Pipeline Specs PipeFacts.

Lemma write_keys_app a b : write_keys (a ++ b) = write_keys a ++ write_keys b.
Proof. unfold write_keys. apply flat_map_app. Qed.

Lemma dedup_ok_ext K K' ev :
  (forall k, In k K <-> In k K') -> dedup_ok K ev -> dedup_ok K' ev.
Proof.
  revert K K'. induction ev as [|e ev IH]; intros K K' HK H; [exact I|].
  destruct e; simpl in *; try (eapply IH; eassumption).
  - destruct H as [H1 H2]. split; [rewrite <- HK; exact H1|].
    eapply IH; [|exact H2]. intros k. simpl. rewrite HK. reflexivity.
  - destruct H as [H1 H2]. split; [rewrite <- HK; exact H1|]. eapply IH; eassumption.
Qed.

Lemma dedup_ok_app K K' ev1 ev2 :
  dedup_ok K ev1 -> (forall k, In k K' <-> In k (write_keys ev1 ++ K)) ->
  dedup_ok K' ev2 -> dedup_ok K (ev1 ++ ev2).
Proof.
  revert K. induction ev1 as [|e ev1 IH]; intros K H1 HK H2.
  - simpl. eapply dedup_ok_ext; [|exact H2]. exact HK.
  - destruct e; simpl in *; try (eapply IH; eassumption).
    + destruct H1 as [Hn H1]. split; [exact Hn|]. eapply IH; [exact H1| |exact H2].
      intros k. rewrite HK. simpl. rewrite !in_app_iff. simpl. tauto.
    + destruct H1 as [Hn H1]. split; [exact Hn|]. eapply IH; eassumption.
Qed.

Lemma plain_dedup K ev : forallb plain ev = true -> dedup_ok K ev /\ write_keys ev = [].
Proof.
  induction ev as [|e ev IH]; [split; [exact I|reflexivity]|].
  simpl. intros H. apply andb_prop in H as [He Hev].
  destruct e; simpl in He; try discriminate; simpl; apply IH; exact Hev.
Qed.

(** [m] writes records consistently with the keys [K] written before, and
    returns the set of all keys written. *)
Definition dedup_from (K : list string) (m : M (gset string)) : Prop :=
  forall s, exists ev,
    trace (snd (m s)) = trace s ++ ev /\ dedup_ok K ev /\
    (forall S', fst (m s) = Ok S' -> forall k, k ∈ S' <-> In k (write_keys ev ++ K)).

Definition same_keys (S : gset string) (K : list string) : Prop := forall k, k ∈ S <-> In k K.

Lemma dedup_ret S K : same_keys S K -> dedup_from K (mret S).
Proof.
  intros HS s. exists []. rewrite app_nil_r. split; [reflexivity|]. split; [exact I|].
  intros S' H. injection H as <-. exact HS.
Qed.

Lemma dedup_bind_plain {A} K (m : M A) f :
  quiet_by plain m -> (forall a, dedup_from K (f a)) -> dedup_from K (m ≫= f).
Proof.
  intros Hm Hf s. destruct (quiet_run plain m s Hm) as [r [ev [He Hev]]].
  destruct (plain_dedup K ev Hev) as [Hd Hw].
  rewrite bind_eq, He. destruct r as [a|e].
  - destruct (Hf a {| scraped := scraped s; trace := trace s ++ ev |}) as [ev2 (Ht & Hd2 & HS)].
    exists (ev ++ ev2). rewrite Ht. simpl. rewrite app_assoc. split; [reflexivity|].
    split.
    + eapply dedup_ok_app; [exact Hd| |exact Hd2]. rewrite Hw. reflexivity.
    + intros S' HS' k. rewrite (HS S' HS'), write_keys_app, Hw. reflexivity.
  - exists ev. split; [reflexivity|]. split; [exact Hd|]. discriminate.
Qed.

Lemma dedup_bind K (m : M (gset string)) f :
  dedup_from K m -> (forall S K', same_keys S K' -> dedup_from K' (f S)) ->
  dedup_from K (m ≫= f).
Proof.
  intros Hm Hf s. destruct (Hm s) as [ev (Ht & Hd & HS)].
  rewrite bind_eq. destruct (m s) as [[S|e] s1] eqn:Hms; simpl in Ht.
  - destruct (Hf S (write_keys ev ++ K) (HS S eq_refl) s1) as [ev2 (Ht2 & Hd2 & HS2)].
    exists (ev ++ ev2). rewrite Ht2, Ht, app_assoc. split; [reflexivity|]. split.
    + eapply dedup_ok_app; [exact Hd| |exact Hd2]. reflexivity.
    + intros S' HS' k. rewrite (HS2 S' HS' k), write_keys_app, !in_app_iff. tauto.
  - exists ev. split; [exact Ht|]. split; [exact Hd|]. discriminate.
Qed.

Lemma dedup_foldM (f : gset string -> string -> M (gset string)) S K l :
  (forall S K x, same_keys S K -> dedup_from K (f S x)) ->
  same_keys S K -> dedup_from K (foldM f S l).
Proof.
  intros Hf. revert S K. induction l as [|x l IH]; intros S K HS; simpl.
  - apply dedup_ret, HS.
  - apply dedup_bind; [apply Hf, HS|]. intros S' K' HS'. apply IH, HS'.
Qed.

Section Env.
Variable E : env.

Lemma process_final_dedup mu rpt S K f :
  same_keys S K -> dedup_from K (process_final E mu rpt S f).
Proof.
  intros HS. unfold process_final.
  apply dedup_bind_plain; [apply quiet_emit; reflexivity|intros _].
  apply dedup_bind_plain; [apply (final_title_loop_quiet E _ plain_plain)|intros raw].
  apply dedup_bind_plain.
  { destruct raw as [[|c t]|];
      first [apply quiet_ret | eapply title_fallback_quiet; exact plain_plain]. }
  intros raw_title. cbv zeta.
  destruct (bool_decide (result_key (clean_title raw_title) (extract_quality raw_title) ∈ S))
    eqn:Hin; intros s.
  - apply bool_decide_eq_true in Hin.
    exists [ESkip (clean_title raw_title) (extract_quality raw_title)].
    split; [reflexivity|]. split.
    + simpl. split; [apply HS; exact Hin|exact I].
    + intros S' H. injection H as <-. exact HS.
  - apply bool_decide_eq_false in Hin.
    exists [EWrite (clean_title raw_title) (extract_quality raw_title) (resolve E f)].
    split; [reflexivity|]. split.
    + simpl. split; [intros Hk; apply Hin, HS, Hk|exact I].
    + intros S' H. injection H as <-. intros k. simpl.
      rewrite elem_of_union, elem_of_singleton. specialize (HS k). intuition.
Qed.

Lemma process_vgm_dedup mu rpt S K v :
  same_keys S K -> dedup_from K (process_vgm E mu rpt S v).
Proof.
  intros HS. unfold process_vgm.
  apply dedup_bind_plain; [apply (load_page_quiet E _ plain_plain)|intros vhtml].
  destruct vhtml as [[|c t]|]; try (apply dedup_ret, HS).
  destruct (extract_final_candidates_from_html E (String c t)); [apply dedup_ret, HS|].
  apply dedup_foldM; [|exact HS]. intros. apply process_final_dedup. assumption.
Qed.

Lemma process_movie_dedup_ok u s :
  exists ev, trace (snd (process_movie E u s)) = trace s ++ ev /\ dedup_ok [] ev.
Proof.
  unfold process_movie. rewrite bind_eq.
  change (emit (EProcess u) s)
    with (Ok tt, {| scraped := scraped s; trace := trace s ++ [EProcess u] |}).
  cbv beta iota. rewrite bind_eq.
  destruct (quiet_run _ _ {| scraped := scraped s; trace := trace s ++ [EProcess u] |}
              (load_page_quiet E _ plain_plain u MOVIE_LOAD_RETRIES))
    as [r [ev [He Hev]]].
  destruct (plain_dedup [] ev Hev) as [Hd Hw].
  rewrite He. simpl scraped. simpl trace.
  assert (Hfin : forall ev2 s2, trace s2 = (trace s ++ [EProcess u]) ++ ev ++ ev2 ->
                   dedup_ok [] ev2 ->
                   exists ev', trace s2 = trace s ++ ev' /\ dedup_ok [] ev').
  { intros ev2 s2 Ht Hd2. exists (EProcess u :: ev ++ ev2). rewrite Ht, <- app_assoc.
    split; [reflexivity|]. simpl. eapply dedup_ok_app; [exact Hd| |exact Hd2].
    rewrite Hw. reflexivity. }
  destruct r as [html|e].
  2:{ apply (Hfin []); [rewrite app_nil_r; reflexivity|exact I]. }
  destruct html as [[|c t]|];
    try (rewrite mark_scraped_eq; apply (Hfin [EMark u; ESave]);
         [simpl; rewrite <- !app_assoc; reflexivity|exact I]).
  cbv zeta. destruct (dedupe ∅ _) as [|x l].
  { rewrite mark_scraped_eq; apply (Hfin [EMark u; ESave]);
      [simpl; rewrite <- !app_assoc; reflexivity|exact I]. }
  rewrite bind_eq.
  match goal with
  | |- context [foldM ?f ?a ?l ?s0] =>
      destruct (dedup_foldM f a [] l (fun S K x HS => process_vgm_dedup _ _ S K x HS)
                  ltac:(intros k; rewrite elem_of_empty; simpl; tauto) s0)
        as [ev2 (Ht2 & Hd2 & _)];
      destruct (foldM f a l s0) as [[saved|e] s2]
  end; simpl in Ht2; cbv beta iota.
  - rewrite mark_scraped_eq. apply (Hfin (ev2 ++ [EMark u; ESave])).
    + simpl. rewrite Ht2, <- !app_assoc. reflexivity.
    + eapply dedup_ok_app; [exact Hd2| |exact I]. reflexivity.
  - cbn [snd]. apply (Hfin ev2); [rewrite Ht2, <- !app_assoc; reflexivity|exact Hd2].
Qed.

End Env.

Lemma dedup_ok_keys K ev :
  dedup_ok K ev -> List.NoDup (write_keys ev) /\ (forall k, In k (write_keys ev) -> ~ In k K).
Proof.
  revert K. induction ev as [|e ev IH]; intros K H.
  - split; [constructor|intros k []].
  - destruct e; simpl in H |- *; try (apply (IH K); exact H).
    + destruct H as [Hn H]. destruct (IH _ H) as [Hnd Hk].
      split.
      * constructor; [|exact Hnd]. intros Hin. apply (Hk _ Hin). left. reflexivity.
      * intros k [<-|Hin]; [exact Hn|]. intros HK. apply (Hk k Hin). right. exact HK.
    + apply (IH K (proj2 H)).
Qed.

Lemma dedup_ok_skips K ev :
  dedup_ok K ev ->
  forall pre t q post, ev = pre ++ ESkip t q :: post ->
  In (result_key t q) (write_keys pre ++ K).
Proof.
  revert K. induction ev as [|e ev IH]; intros K H pre t q post Hev.
  - destruct pre; discriminate.
  - destruct pre as [|e' pre]; simpl in Hev; injection Hev as He Hev; subst e.
    + simpl in H. simpl. exact (proj1 H).
    + destruct e'; simpl in H |- *;
        try (apply (IH K H pre t q post Hev)).
      * rewrite in_app_iff. simpl.
        pose proof (IH _ (proj2 H) pre t q post Hev) as Hi.
        simpl in Hi. rewrite in_app_iff in Hi. simpl in Hi. tauto.
      * apply (IH K (proj2 H) pre t q post Hev).
Qed.

End DedupFacts.

(** A call of [process_movie] that returns normally writes
    its start, then only page loads, resolutions and records (no mark),
    and ends by marking the detail page and saving the ledger; a call that
    raises leaves the ledger unchanged and writes no mark.  Over a whole
    run of [run_scraper] that returns normally, every detail page is
    marked exactly as often as it is started, at most once, never when it
    was already marked, and it is marked in the final ledger. *)
Theorem process_movie_marks_after_attempts (E : env) (pages : list Z) (s : st) (u : string)
  (Hrun : fst (run_scraper E pages s) = Ok tt) :
  (match process_movie E u s with
   | (Ok _, s') =>
       exists body, trace s' = trace s ++ EProcess u :: body ++ [EMark u; ESave] /\
                    forallb Specs.not_mark body = true /\
                    scraped s' = <[u := true]> (scraped s)
   | (Exc _, s') =>
       exists body, trace s' = trace s ++ EProcess u :: body /\
                    forallb Specs.not_mark body = true /\ scraped s' = scraped s
   end) /\
  exists ev, trace (snd (run_scraper E pages s)) = trace s ++ ev /\
             Specs.ledger_ok s ev (snd (run_scraper E pages s)).
Proof.
  split; [apply PipeFacts.process_movie_shape|].
  exact (PipeFacts.ledger_step_run_scraper E pages s tt Hrun).
Qed.

Lemma process_movie_marks_after_attempts_witness :
  let E := listing (site "https://m.example/movie-a/" (Some (Some "Movie A 1080p"))
                         (Some "Movie A 1080p") (Some "Movie A 1080p"))
                   ["https://m.example/movie-a/"; "https://m.example/movie-a/"] in
  fst (run_scraper E [1%Z] st0) = Ok tt /\
  exists ev, trace (snd (run_scraper E [1%Z] st0)) = trace st0 ++ ev /\
             Specs.ledger_ok st0 ev (snd (run_scraper E [1%Z] st0)).
Proof.
  intros E. assert (H : fst (run_scraper E [1%Z] st0) = Ok tt) by (vm_compute; reflexivity).
  split; [exact H|].
  destruct (process_movie_marks_after_attempts E [1%Z] st0 "https://m.example/movie-a/" H)
    as [_ Hledger].
  exact Hledger.
Defined.

(** C1 (code bug).  A call of [process_movie] that raises has started the
    detail page and leaves it unmarked: the ledger is unchanged and no
    mark is written, since [scraped[movie_url] = True] is its last step.
    It does raise: on a detail page without [<title>] whose final pages
    give no title, the slug fallback [movie_url.split("/")[-2]] raises
    [IndexError] for a listing link such as ["http:x"], and the exception
    ends the whole run. *)
Theorem process_movie_raise_unmarked (E : env) (u : string) (s : st) (e : exn)
  (Hraise : fst (process_movie E u s) = Exc e) :
  scraped (snd (process_movie E u s)) = scraped s /\
  exists body, trace (snd (process_movie E u s)) = trace s ++ EProcess u :: body /\
               forallb Specs.not_mark body = true.
Proof.
  pose proof (PipeFacts.process_movie_shape E u s) as Hs.
  destruct (process_movie E u s) as [[a|e'] s'] eqn:Hpm; simpl in Hraise; [discriminate|].
  destruct Hs as (body & Ht & Hn & Hsc). split; [exact Hsc|].
  exists body. split; assumption.
Qed.

Lemma process_movie_raise_unmarked_witness :
  let E := site "http:x" None None None in
  fst (process_movie E "http:x" st0) = Exc IndexError /\
  scraped (snd (process_movie E "http:x" st0)) !! "http:x" = None /\
  fst (run_scraper (listing E ["http:x"]) [1%Z] st0) = Exc IndexError.
Proof.
  intros E.
  assert (H : fst (process_movie E "http:x" st0) = Exc IndexError) by (vm_compute; reflexivity).
  split; [exact H|].
  destruct (process_movie_raise_unmarked E "http:x" st0 IndexError H) as [Hsc _].
  split; [rewrite Hsc; vm_compute; reflexivity|vm_compute; reflexivity].
Defined.

(** C2 (amended).  Within one call of [process_movie] the dedup key of a
    record is its cleaned title and quality ([title_clean||quality]), not
    its URL: the keys of the records written are pairwise distinct, and a
    record is skipped only when a record with its key was written before
    in the same call.  In particular two intermediary hops whose (distinct)
    final links both carry the title "Movie A 1080p" give exactly one
    1080p record. *)
Theorem process_movie_dedup_by_title (E : env) (u : string) (s : st) :
  (exists ev, trace (snd (process_movie E u s)) = trace s ++ ev /\
     List.NoDup (Specs.write_keys ev) /\
     (forall pre t q post, ev = pre ++ ESkip t q :: post ->
        In (result_key t q) (Specs.write_keys pre))) /\
  writes (trace (snd (process_movie
            (site "https://site.example/movie-a/" None (Some "Movie A 1080p") (Some "Movie A 1080p"))
            "https://site.example/movie-a/" st0))) = [("Movie A 1080P", "1080p", FIN1)].
Proof.
  split; [|vm_compute; reflexivity].
  destruct (DedupFacts.process_movie_dedup_ok E u s) as [ev [Ht Hd]].
  exists ev. split; [exact Ht|]. split.
  - exact (proj1 (DedupFacts.dedup_ok_keys [] ev Hd)).
  - intros pre t q post Hev.
    pose proof (DedupFacts.dedup_ok_skips [] ev Hd pre t q post Hev) as Hin.
    rewrite app_nil_r in Hin. exact Hin.
Qed.

(** C2 counterexample: the two hops lead to the distinct final links
    [FIN1] and [FIN2], both 1080p.  With equal titles only [FIN1] is
    written, although the pair ([FIN2], 1080p) was never emitted; with
    different titles both are written, two 1080p records. *)
Lemma process_movie_dedup_url_counterexample :
  FIN1 <> FIN2 /\
  writes (trace (snd (process_movie
            (site "https://site.example/movie-a/" None (Some "Movie A 1080p") (Some "Movie A 1080p"))
            "https://site.example/movie-a/" st0))) = [("Movie A 1080P", "1080p", FIN1)] /\
  writes (trace (snd (process_movie
            (site "https://site.example/movie-a/" None (Some "Movie A 1080p") (Some "Movie B 1080p"))
            "https://site.example/movie-a/" st0))) =
    [("Movie A 1080P", "1080p", FIN1); ("Movie B 1080P", "1080p", FIN2)].
Proof. split; [discriminate|]. vm_compute. split; reflexivity. Qed.

(** C3.  [clean_title] maps the empty input to "Unknown", but its guard
    looks at the input only: a title made of junk words alone cleans to
    the empty string, and [process_movie] then writes a record whose title
    is empty (the final page's [h5] reads "Download"). *)
Theorem clean_title_empty_result :
  clean_title "" = "Unknown" /\
  clean_title "download" = "" /\
  clean_title "Download" = "" /\
  writes (trace (snd (process_movie
            (site "https://site.example/movie-a/" None (Some "Download") None)
            "https://site.example/movie-a/" st0))) =
    [("", "Unknown", FIN1); ("Movie A", "Unknown", FIN2)].
Proof. vm_compute. repeat split. Qed.

(** C5 (amended).  [clean_title] is not idempotent, also on titles it
    does not empty: the whitespace runs are collapsed only after the junk
    pass, so when a separator or an erased junk word stood between "dual"
    and "audio", the junk phrase "dual audio" forms only then and is
    erased by a second pass. *)
Theorem clean_title_reclean :
  clean_title "dual. audio movie" = "Dual Audio Movie" /\
  clean_title "dual download audio movie" = "Dual Audio Movie" /\
  clean_title "Dual Audio Movie" = "Movie".
Proof. vm_compute. repeat split. Qed.

(** C5 counterexample: "dual. audio movie" cleans to "Dual Audio Movie",
    which cleans to "Movie". *)
Lemma clean_title_idempotence_counterexample :
  clean_title (clean_title "dual. audio movie") <> clean_title "dual. audio movie".
Proof. vm_compute. discriminate. Qed.

(* ------------------------------------------------------------------ *)
(** ** Candidate links *)

Module CandidateFacts.
Import Pipeline.

Lemma dedupe_spec seen l :
  List.NoDup (dedupe seen l) /\
  (forall x, In x (dedupe seen l) <-> In x l /\ x ∉ seen) /\
  dedupe seen l `sublist_of` l.
Proof.
  revert seen. induction l as [|x l IH]; intros seen; simpl.
  - split; [constructor|]. split; [intros y; simpl; tauto|constructor].
  - case_bool_decide as Hx.
    + destruct (IH seen) as (Hnd & Hin & Hsub). split; [exact Hnd|]. split.
      * intros y. rewrite Hin. split; [tauto|].
        intros [[<-|Hy] Hn]; [contradiction|tauto].
      * apply sublist_cons, Hsub.
    + destruct (IH ({[x]} ∪ seen)) as (Hnd & Hin & Hsub). split; [|split].
      * constructor; [|exact Hnd]. rewrite Hin. intros [_ Hn]. apply Hn. set_solver.
      * intros y. simpl. rewrite Hin. split.
        -- intros [<-|[Hy Hn]]; [tauto|]. split; [tauto|]. set_solver.
        -- intros [[<-|Hy] Hn]; [tauto|]. destruct (decide (x = y)) as [->|Hne]; [tauto|].
           right. split; [exact Hy|]. set_solver.
      * apply sublist_skip, Hsub.
Qed.

Lemma in_flat_map_single {A} (f : A -> list string) l h :
  (forall a, f a = [] \/ exists h', f a = [h']) ->
  In h (flat_map f l) <-> exists a, In a l /\ f a = [h].
Proof.
  intros Hf. rewrite in_flat_map. split.
  - intros [a [Ha Hh]]. exists a. split; [exact Ha|].
    destruct (Hf a) as [He|[h' He]]; rewrite He in Hh |- *; [contradiction|].
    destruct Hh as [<-|[]]. reflexivity.
  - intros [a [Ha He]]. exists a. rewrite He. split; [exact Ha|left; reflexivity].
Qed.

Lemma final_candidate_shape a :
  final_candidate a = [] \/ exists h, final_candidate a = [h].
Proof.
  unfold final_candidate. repeat case_match; eauto.
Qed.

Lemma final_candidate_eq a h :
  final_candidate a = [h] <->
  h = Py.strip (a_href a) /\ Py.startswith "http" h = true /\ is_episode h = false /\
  is_episode (Py.lower (a_text a)) = false /\
  (existsb (fun k => Py.contains k (Py.lower h)) HOST_PRIORITY
   || any_keyword (Py.lower (a_text a)) || a_button a) = true.
Proof.
  unfold final_candidate.
  destruct (Py.startswith "http" (Py.strip (a_href a))) eqn:H1; cbv iota beta;
    [|split; [discriminate|intros (-> & H & _); congruence]].
  destruct (is_episode (Py.lower (a_text a))) eqn:H2; cbv iota beta;
    [split; [discriminate|intros (_ & _ & _ & H & _); congruence]|].
  destruct (is_episode (Py.strip (a_href a))) eqn:H3; cbv iota beta;
    [split; [discriminate|intros (-> & _ & H & _); congruence]|].
  destruct (existsb (fun k => Py.contains k (Py.lower (Py.strip (a_href a)))) HOST_PRIORITY
            || any_keyword (Py.lower (a_text a))) eqn:H4; cbv iota beta.
  - split; [intros [=<-]; repeat split; first [assumption|reflexivity|rewrite H4; reflexivity]|intros (-> & _); reflexivity].
  - destruct (a_button a) eqn:H5.
    + split; [intros [=<-]; repeat split; first [assumption|reflexivity|rewrite H4; reflexivity]|intros (-> & _); reflexivity].
    + split; [discriminate|intros (-> & _ & _ & _ & H); rewrite H4 in H; discriminate].
Qed.

End CandidateFacts.

(** [extract_final_candidates_from_html] returns each accepted link once:
    a link is in the result exactly when some anchor of the page has it
    as its stripped [href], it starts with "http", neither it nor the
    anchor text looks like an episode, and it names a priority host, or
    the anchor text has an accepted keyword, or the anchor wraps a
    button. *)
Theorem extract_final_candidates_spec (E : env) (html : string) :
  List.NoDup (extract_final_candidates_from_html E html) /\
  forall h, In h (extract_final_candidates_from_html E html) <->
    exists a, In a (d_anchors (parse E html)) /\ h = Py.strip (a_href a) /\
      Py.startswith "http" h = true /\ is_episode h = false /\
      is_episode (Py.lower (a_text a)) = false /\
      (existsb (fun k => Py.contains k (Py.lower h)) HOST_PRIORITY
       || any_keyword (Py.lower (a_text a)) || a_button a) = true.
Proof.
  unfold extract_final_candidates_from_html.
  destruct (CandidateFacts.dedupe_spec ∅ (flat_map final_candidate (d_anchors (parse E html))))
    as (Hnd & Hin & _).
  split; [exact Hnd|]. intros h. rewrite Hin.
  rewrite (CandidateFacts.in_flat_map_single _ _ _ CandidateFacts.final_candidate_shape).
  split.
  - intros [[a [Ha He]] _]. exists a. split; [exact Ha|].
    apply CandidateFacts.final_candidate_eq, He.
  - intros [a [Ha He]]. split; [|set_solver].
    exists a. split; [exact Ha|]. apply CandidateFacts.final_candidate_eq, He.
Qed.

(** On a detail page the VGMLINK-domain test of [process_movie] never
    decides anything: an anchor is a candidate exactly when its stripped
    [href] starts with "http", neither the link nor its text looks like
    an episode, and its text has an accepted keyword. *)
Theorem movie_candidate_keyword_only (a : anchor) :
  movie_candidate a =
  (let href := Py.strip (a_href a) in
   let text := Py.lower (a_text a) in
   if Py.startswith "http" href && negb (is_episode text || is_episode href) && any_keyword text
   then [href] else []).
Proof.
  unfold movie_candidate. cbv zeta.
  destruct (Py.startswith "http" (Py.strip (a_href a))); [|reflexivity].
  destruct (is_episode (Py.lower (a_text a)) || is_episode (Py.strip (a_href a))); [reflexivity|].
  destruct (any_keyword (Py.lower (a_text a))); rewrite ?andb_true_r, ?andb_false_r;
    destruct (Py.contains "vgml" (Py.lower (Py.strip (a_href a)))
              || Py.contains "vgmlink" (Py.lower (Py.strip (a_href a)))); reflexivity.
Qed.

(** The candidate list of [process_movie] ("dedupe and preserve order")
    holds each candidate once, loses none of them, and keeps the order in
    which they appear on the page. *)
Theorem movie_candidates_dedupe (anchors : list anchor) :
  let l := flat_map movie_candidate anchors in
  List.NoDup (dedupe ∅ l) /\ (forall x, In x (dedupe ∅ l) <-> In x l) /\
  dedupe ∅ l `sublist_of` l.
Proof.
  cbv zeta. destruct (CandidateFacts.dedupe_spec ∅ (flat_map movie_candidate anchors))
    as (Hnd & Hin & Hsub).
  split; [exact Hnd|]. split; [|exact Hsub].
  intros x. rewrite Hin. set_solver.
Qed.

Module LoadFacts.
Import Pipeline.

Lemma emit_then {A} e (m : M A) s :
  (emit e;; m) s = m {| scraped := scraped s; trace := trace s ++ [e] |}.
Proof. reflexivity. Qed.

Lemma load_attempts_run (E : env) url f : forall k s,
  exists n, k <= n <= k + f /\ (forall j, k <= j < n -> goto E url j = None) /\
    (n < k + f -> goto E url n <> None) /\
    load_attempts E url k (S f) s =
      (Ok (goto E url n),
       {| scraped := scraped s; trace := trace s ++ repeat (EGoto url) (S (n - k)) |}).
Proof.
  induction f as [|f IH]; intros k s.
  - exists k. split; [lia|]. split; [intros j Hj; lia|]. split; [lia|].
    cbn [load_attempts]. rewrite emit_then. rewrite Nat.sub_diag.
    destruct (goto E url k); reflexivity.
  - cbn [load_attempts]. rewrite emit_then.
    destruct (goto E url k) as [c|] eqn:G.
    + exists k. split; [lia|]. split; [intros j Hj; lia|]. split; [congruence|].
      rewrite Nat.sub_diag, G. reflexivity.
    + destruct (IH (S k) {| scraped := scraped s; trace := trace s ++ [EGoto url] |})
        as (n & Hn & Hbefore & Hstop & Hrun).
      exists n. split; [lia|]. split.
      * intros j Hj. destruct (decide (j = k)) as [->|Hne]; [exact G|]. apply Hbefore. lia.
      * split; [intros Hlt; apply Hstop; lia|].
        cbn [load_attempts] in Hrun. rewrite Hrun. cbn [scraped trace].
        rewrite <- app_assoc. do 3 f_equal.
        replace (n - k) with (S (n - S k)) by lia. reflexivity.
Qed.


(** The events of final-page attempts: a load of [url], followed by a
    requests fetch when [b] says the attempt raised. *)
Lemma final_title_loop_run (E : env) url fuel : forall k raw s,
  exists res (bs : list bool),
    final_title_loop E url k fuel raw s =
      (Ok res, {| scraped := scraped s;
                  trace := trace s ++
                    flat_map (fun b : bool => EGoto url :: (if b then [EFetch url] else [])) bs |}) /\
    length bs <= fuel /\ (length bs < fuel -> Py.truthy res = true).
Proof.
  induction fuel as [|f IH]; intros k raw s.
  - exists raw, []. rewrite app_nil_r. split; [destruct s; reflexivity|]. simpl; lia.
  - cbn [final_title_loop]. rewrite emit_then.
    set (s1 := {| scraped := scraped s; trace := trace s ++ [EGoto url] |}).
    destruct (final_try E url k) as [html ptitle|assigned]; cbv zeta.
    + set (raw' := if nonempty (d_h5 (parse E html)) then d_h5 (parse E html)
                   else if nonempty ptitle then ptitle else raw).
      destruct (Py.truthy raw') eqn:Ht.
      * exists raw', [false]. split; [reflexivity|]. simpl; split; [lia|intros; exact Ht].
      * destruct (IH (S k) raw' s1) as (res & bs & Hrun & Hlen & Hstop).
        exists res, (false :: bs). rewrite Hrun. split.
        -- subst s1. cbn [scraped trace]. rewrite <- app_assoc. reflexivity.
        -- simpl. split; [lia|intros Hlt; apply Hstop; lia].
    + rewrite emit_then. subst s1. cbn [scraped trace].
      set (s2 := {| scraped := scraped s; trace := (trace s ++ [EGoto url]) ++ [EFetch url] |}).
      set (raw' := match assigned with Some t => Some t | None => raw end).
      assert (Hrec : exists res bs,
        final_title_loop E url (S k) f raw' s2 =
          (Ok res, {| scraped := scraped s;
                      trace := trace s ++ flat_map (fun b : bool =>
                        EGoto url :: (if b then [EFetch url] else [])) (true :: bs) |}) /\
        length (true :: bs) <= S f /\ (length (true :: bs) < S f -> Py.truthy res = true)).
      { destruct (IH (S k) raw' s2) as (res & bs & Hrun & Hlen & Hstop).
        exists res, bs. rewrite Hrun. split.
        - subst s2. cbn [scraped trace]. rewrite <- !app_assoc. reflexivity.
        - simpl. split; [lia|intros Hlt; apply Hstop; lia]. }
      assert (Hrec' : exists res (bs : list bool),
        final_title_loop E url (S k) f raw' s2 =
          (Ok res, {| scraped := scraped s;
                      trace := trace s ++ flat_map (fun b : bool =>
                        EGoto url :: (if b then [EFetch url] else [])) bs |}) /\
        length bs <= S f /\ (length bs < S f -> Py.truthy res = true)).
      { destruct Hrec as (res & bs & Hr). exists res, (true :: bs). exact Hr. }
      clear Hrec. rename Hrec' into Hrec.
      destruct (fetch E url) as [txt|]; [|exact Hrec].
      destruct (Py.truthy (Some txt)); [|exact Hrec].
      destruct (nonempty (d_h5 (parse E txt))) eqn:Hh; [|exact Hrec].
      exists (d_h5 (parse E txt)), [true]. split.
      * subst s2. cbn. rewrite <- app_assoc. reflexivity.
      * simpl. split; [lia|intros; exact Hh].
Qed.

End LoadFacts.

(** The page-load loop of [process_movie], of the VGMLINK loop and of
    [run_scraper] (with [r >= 1] retries): it tries [page.goto] at
    attempts 1, 2, ... and stops at the first attempt [n] that returns
    content, or at attempt [r]; every attempt logs a load of [url].  The
    content of attempt [n] is kept when it is non-empty; otherwise, also
    when the page loaded with empty content, the requests fallback is
    used once.  Nothing is marked or written. *)
Theorem load_page_retries (E : Pipeline.env) (url : string) (r : nat) (s : Pipeline.st)
  (Hr : 1 <= r) :
  exists n, 1 <= n /\ n <= r /\ (forall k, 1 <= k /\ k < n -> Pipeline.goto E url k = None) /\
    (n < r -> Pipeline.goto E url n <> None) /\
    Pipeline.load_page E url r s =
      (Ok (if Py.truthy (Pipeline.goto E url n) then Pipeline.goto E url n
           else Pipeline.fetch E url),
       {| Pipeline.scraped := Pipeline.scraped s;
          Pipeline.trace := Pipeline.trace s ++ repeat (Pipeline.EGoto url) n ++
            (if Py.truthy (Pipeline.goto E url n) then [] else [Pipeline.EFetch url]) |}).
Proof.
  destruct r as [|f]; [lia|].
  destruct (LoadFacts.load_attempts_run E url f 1 s) as (n & Hn & Hbefore & Hstop & Hrun).
  exists n. split; [lia|]. split; [lia|]. split; [exact Hbefore|]. split; [intros Hlt; apply Hstop; lia|].
  unfold Pipeline.load_page. rewrite PipeFacts.bind_eq, Hrun.
  replace (S (n - 1)) with n by lia.
  destruct (Py.truthy (Pipeline.goto E url n)); cbv beta iota.
  - rewrite app_nil_r. reflexivity.
  - rewrite LoadFacts.emit_then. cbn [Pipeline.scraped Pipeline.trace].
    rewrite <- app_assoc. reflexivity.
Qed.

Lemma load_page_retries_witness :
  exists n, 1 <= n /\ n <= 3 /\ (forall k, 1 <= k /\ k < n -> Pipeline.goto Demo.flaky "u" k = None) /\
    (n < 3 -> Pipeline.goto Demo.flaky "u" n <> None) /\
    Pipeline.load_page Demo.flaky "u" 3 Demo.st0 =
      (Ok (if Py.truthy (Pipeline.goto Demo.flaky "u" n) then Pipeline.goto Demo.flaky "u" n
           else Pipeline.fetch Demo.flaky "u"),
       {| Pipeline.scraped := Pipeline.scraped Demo.st0;
          Pipeline.trace := Pipeline.trace Demo.st0 ++ repeat (Pipeline.EGoto "u") n ++
            (if Py.truthy (Pipeline.goto Demo.flaky "u" n) then []
             else [Pipeline.EFetch "u"]) |}).
Proof. apply (load_page_retries Demo.flaky "u" 3 Demo.st0). lia. Defined.

Module FallbackFacts.
Import Pipeline.

Lemma split_l_cons c l : exists w ws, Py.split_l c l = w :: ws.
Proof.
  induction l as [|x l [w [ws IH]]]; simpl; [eauto|].
  rewrite IH. destruct (Ascii.eqb x c); eauto.
Qed.

Lemma split_l_no_sep c l : ~ In c l -> Py.split_l c l = [l].
Proof.
  induction l as [|x l IH]; intros Hn; [reflexivity|]. simpl.
  rewrite IH by (intros H; apply Hn; right; exact H).
  destruct (Ascii.eqb_spec x c) as [->|_]; [exfalso; apply Hn; left; reflexivity|reflexivity].
Qed.

Lemma split_l_app c a b : Py.split_l c (a ++ c :: b) = Py.split_l c a ++ Py.split_l c b.
Proof.
  induction a as [|x a IH]; simpl.
  - destruct (split_l_cons c b) as [w [ws ->]]. rewrite Ascii.eqb_refl. reflexivity.
  - rewrite IH. destruct (split_l_cons c a) as [w [ws ->]]. simpl.
    destruct (Ascii.eqb x c); reflexivity.
Qed.

Lemma split_l_length c l : 2 <= length (Py.split_l c l) <-> In c l.
Proof.
  split.
  - intros Hl. destruct (in_dec ascii_dec c l) as [H|H]; [exact H|].
    rewrite split_l_no_sep in Hl by exact H. simpl in Hl. lia.
  - intros H. destruct (in_split c l H) as (a & b & ->). rewrite split_l_app, length_app.
    destruct (split_l_cons c a) as [w [ws ->]]. destruct (split_l_cons c b) as [w' [ws' ->]].
    simpl. lia.
Qed.

Lemma split_length c s : length (Py.split c s) = length (Py.split_l c (Py.chars s)).
Proof. unfold Py.split. apply length_map. Qed.

End FallbackFacts.

(** The movie-URL fallback of the final-page title: with an empty page
    title, [movie_url.split("/")[-2]] raises [IndexError] exactly when the
    URL has no '/'; it raises nothing else and changes no state. *)
Theorem title_fallback_index_error (u : string) (s : Pipeline.st) :
  Pipeline.title_fallback "" u s = (Exc IndexError, s) <-> ~ In "/"%char (Py.chars u).
Proof.
  unfold Pipeline.title_fallback. cbn [Py.truthy]. cbv iota.
  rewrite <- FallbackFacts.split_l_length, <- FallbackFacts.split_length.
  destruct (Nat.leb_spec 2 (length (Py.split "/" u))) as [H|H].
  - destruct (nth_error (Py.split "/" u) (length (Py.split "/" u) - 2)) eqn:Hn.
    + split; [discriminate|intros Hc; lia].
    + apply nth_error_None in Hn. lia.
  - split; [intros _; lia|reflexivity].
Qed.

(** With an empty page title, a movie URL [.../seg/last] with no '/' in
    [seg] or [last] gives the title [seg] with its '-' turned into
    spaces: the slug of ["https://site/movie-name/"], but the host of
    ["https://site/movie-name"]. *)
Theorem title_fallback_slug (u : string) (pre seg last : list ascii) (s : Pipeline.st)
  (Hu : Py.chars u = pre ++ "/"%char :: seg ++ "/"%char :: last)
  (Hseg : ~ In "/"%char seg) (Hlast : ~ In "/"%char last) :
  Pipeline.title_fallback "" u s = (Ok (Py.replace_char "-" " " (Py.of_chars seg)), s).
Proof.
  unfold Pipeline.title_fallback, Py.split. cbn [Py.truthy]. cbv iota.
  rewrite Hu, !FallbackFacts.split_l_app, (FallbackFacts.split_l_no_sep _ seg Hseg),
    (FallbackFacts.split_l_no_sep _ last Hlast).
  rewrite !map_app. cbn [map]. rewrite !length_app. cbn [length].
  replace (length (map Py.of_chars (Py.split_l "/" pre)) + (1 + 1) - 2)
    with (length (map Py.of_chars (Py.split_l "/" pre))) by lia.
  replace (2 <=? length (map Py.of_chars (Py.split_l "/" pre)) + (1 + 1)) with true
    by (symmetry; apply Nat.leb_le; lia).
  rewrite nth_error_app2 by lia. rewrite Nat.sub_diag. reflexivity.
Qed.

Lemma title_fallback_slug_witness :
  Py.chars "https://site.example/movie-name/" =
    Py.chars "https://site.example" ++ "/"%char :: Py.chars "movie-name" ++ "/"%char :: [] /\
  ~ In "/"%char (Py.chars "movie-name") /\ ~ In "/"%char [] /\
  Pipeline.title_fallback "" "https://site.example/movie-name/" Demo.st0 =
    (Ok (Py.replace_char "-" " " (Py.of_chars (Py.chars "movie-name"))), Demo.st0).
Proof.
  assert (Hs : ~ In "/"%char (Py.chars "movie-name")) by (vm_compute; intuition discriminate).
  assert (Hl : ~ In "/"%char (@nil ascii)) by (intros []).
  split; [reflexivity|]. split; [exact Hs|]. split; [exact Hl|].
  apply (title_fallback_slug "https://site.example/movie-name/"
           (Py.chars "https://site.example") (Py.chars "movie-name") [] Demo.st0);
    [reflexivity|exact Hs|exact Hl].
Defined.

Module ProcessFacts.
Import Pipeline.

Lemma title_fallback_res t u s :
  (exists x, title_fallback t u s = (Ok x, s)) \/
  (title_fallback t u s = (Exc IndexError, s) /\ t = "" /\ ~ In "/"%char (Py.chars u)).
Proof.
  unfold title_fallback. destruct t as [|c t']; cbn [Py.truthy]; cbv iota; [|left; eexists; reflexivity].
  destruct (2 <=? length (Py.split "/" u)) eqn:H.
  - apply Nat.leb_le in H.
    destruct (nth_error (Py.split "/" u) (length (Py.split "/" u) - 2)) eqn:Hn.
    + left. eexists. reflexivity.
    + apply nth_error_None in Hn. lia.
  - right. split; [reflexivity|]. split; [reflexivity|].
    rewrite <- FallbackFacts.split_l_length, <- FallbackFacts.split_length.
    apply Nat.leb_gt in H. lia.
Qed.

Lemma finish_run x (saved : gset string) final' s :
  (let quality := extract_quality x in
   let title_clean := clean_title x in
   let key := result_key title_clean quality in
   if bool_decide (key ∈ saved) then emit (ESkip title_clean quality);; mret saved
   else emit (EWrite title_clean quality final');; mret ({[key]} ∪ saved)) s =
  (if bool_decide (result_key (clean_title x) (extract_quality x) ∈ saved)
   then (Ok saved, {| scraped := scraped s;
                      trace := trace s ++ [ESkip (clean_title x) (extract_quality x)] |})
   else (Ok ({[result_key (clean_title x) (extract_quality x)]} ∪ saved),
         {| scraped := scraped s;
            trace := trace s ++ [EWrite (clean_title x) (extract_quality x) final'] |})).
Proof. cbv zeta. destruct (bool_decide _); reflexivity. Qed.

Lemma raw_title_res (res : option string) t u s :
  (exists x, (match res with
              | Some (String c t') => mret (String c t')
              | _ => title_fallback t u
              end : M string) s = (Ok x, s)) \/
  ((match res with
    | Some (String c t') => mret (String c t')
    | _ => title_fallback t u
    end : M string) s = (Exc IndexError, s) /\ t = "" /\ ~ In "/"%char (Py.chars u)).
Proof.
  destruct res as [[|c t']|]; [apply title_fallback_res|left; eexists; reflexivity|apply title_fallback_res].
Qed.

End ProcessFacts.

(** The runs of [process_final]: the resolved URL is loaded in at most
    [FINAL_LOAD_RETRIES] attempts; then either the title fallback raises
    [IndexError], or exactly one skip or write follows. *)
Lemma process_final_cases (E : Pipeline.env) (movie_url raw_page_title : string)
  (saved : gset string) (final : string) (s : Pipeline.st) :
  exists bs : list bool, length bs <= Pipeline.FINAL_LOAD_RETRIES /\
    let r := Pipeline.resolve E final in
    let loaded := {| Pipeline.scraped := Pipeline.scraped s;
                     Pipeline.trace := Pipeline.trace s ++ Pipeline.EResolve final ::
                       flat_map (fun b : bool => Pipeline.EGoto r ::
                                   (if b then [Pipeline.EFetch r] else [])) bs |} in
    (Pipeline.process_final E movie_url raw_page_title saved final s = (Exc IndexError, loaded) /\
     raw_page_title = "" /\ ~ In "/"%char (Py.chars movie_url)) \/
    (exists t, let title := clean_title t in let q := extract_quality t in
      let key := Pipeline.result_key title q in
      (key ∈ saved /\
       Pipeline.process_final E movie_url raw_page_title saved final s =
         (Ok saved, {| Pipeline.scraped := Pipeline.scraped s;
                       Pipeline.trace := Pipeline.trace loaded ++ [Pipeline.ESkip title q] |})) \/
      ((key ∉ saved) /\
       Pipeline.process_final E movie_url raw_page_title saved final s =
         (Ok ({[key]} ∪ saved),
          {| Pipeline.scraped := Pipeline.scraped s;
             Pipeline.trace := Pipeline.trace loaded ++ [Pipeline.EWrite title q r] |}))).
Proof.
  unfold Pipeline.process_final. rewrite LoadFacts.emit_then. cbv zeta.
  destruct (LoadFacts.final_title_loop_run E (Pipeline.resolve E final)
              Pipeline.FINAL_LOAD_RETRIES 1 None
              {| Pipeline.scraped := Pipeline.scraped s;
                 Pipeline.trace := Pipeline.trace s ++ [Pipeline.EResolve final] |})
    as (res & bs & Hrun & Hlen & _).
  exists bs. split; [exact Hlen|].
  rewrite PipeFacts.bind_eq, Hrun. cbn [Pipeline.scraped Pipeline.trace].
  rewrite <- app_assoc. cbn [app].
  set (s2 := {| Pipeline.scraped := Pipeline.scraped s;
                Pipeline.trace := Pipeline.trace s ++ Pipeline.EResolve final ::
                  flat_map (fun b : bool => Pipeline.EGoto (Pipeline.resolve E final) ::
                    (if b then [Pipeline.EFetch (Pipeline.resolve E final)] else [])) bs |}).
  rewrite PipeFacts.bind_eq.
  destruct (ProcessFacts.raw_title_res res raw_page_title movie_url s2)
    as [[x Hx]|(Hx & Hr & Hu)]; rewrite Hx.
  - right. exists x. rewrite ProcessFacts.finish_run. cbv zeta.
    case_bool_decide; [left|right]; (split; [assumption|reflexivity]).
  - left. split; [reflexivity|]. split; assumption.
Qed.

(** One final link of [process_movie], when the iteration returns
    normally: the link was resolved, then only the resolved URL was
    loaded, in at most [FINAL_LOAD_RETRIES] attempts (each a page load,
    possibly followed by a requests fetch), and exactly one event
    follows: a skip when the (title, quality) key was already saved for
    this movie, else a write of the resolved URL under the cleaned title
    and the quality, whose key is added.  The ledger is not touched. *)
Theorem process_final_outcome (E : Pipeline.env) (movie_url raw_page_title : string)
  (saved saved' : gset string) (final : string) (s : Pipeline.st)
  (Hok : fst (Pipeline.process_final E movie_url raw_page_title saved final s) = Ok saved') :
  exists (bs : list bool) (t : string), length bs <= Pipeline.FINAL_LOAD_RETRIES /\
    let s' := snd (Pipeline.process_final E movie_url raw_page_title saved final s) in
    let r := Pipeline.resolve E final in
    let loaded := Pipeline.trace s ++ Pipeline.EResolve final ::
                    flat_map (fun b : bool => Pipeline.EGoto r ::
                                (if b then [Pipeline.EFetch r] else [])) bs in
    let title := clean_title t in let q := extract_quality t in
    let key := Pipeline.result_key title q in
    Pipeline.scraped s' = Pipeline.scraped s /\
    ((key ∈ saved /\ saved' = saved /\ Pipeline.trace s' = loaded ++ [Pipeline.ESkip title q]) \/
     ((key ∉ saved) /\ saved' = {[key]} ∪ saved /\
      Pipeline.trace s' = loaded ++ [Pipeline.EWrite title q r])).
Proof.
  destruct (process_final_cases E movie_url raw_page_title saved final s) as (bs & Hlen & Hc).
  cbv zeta in Hc.
  destruct Hc as [(Hx & _ & _) | (t & [(Hk & Hx) | (Hk & Hx)])];
    rewrite Hx in Hok |- *; cbn [fst] in Hok; [discriminate Hok| |];
    injection Hok as <-; exists bs, t; (split; [exact Hlen|]); cbv zeta;
    cbn [snd Pipeline.scraped Pipeline.trace]; (split; [reflexivity|]).
  - left. split; [exact Hk|]. split; reflexivity.
  - right. split; [exact Hk|]. split; reflexivity.
Qed.

Lemma process_final_outcome_witness :
  let E := Demo.site "https://site.example/movie-a/" None (Some "Movie A 1080p") None in
  fst (Pipeline.process_final E "https://site.example/movie-a/" "" ∅ Demo.FIN1 Demo.st0) =
    Ok {["Movie A 1080P||1080p"]} /\
  Pipeline.scraped (snd (Pipeline.process_final E "https://site.example/movie-a/" "" ∅ Demo.FIN1 Demo.st0)) =
    Pipeline.scraped Demo.st0.
Proof.
  intros E.
  assert (H : fst (Pipeline.process_final E "https://site.example/movie-a/" "" ∅ Demo.FIN1 Demo.st0) =
              Ok {["Movie A 1080P||1080p"]}) by (vm_compute; reflexivity).
  split; [exact H|].
  destruct (process_final_outcome E "https://site.example/movie-a/" "" ∅ {["Movie A 1080P||1080p"]}
              Demo.FIN1 Demo.st0 H) as (bs & t & _ & Hsc & _).
  exact Hsc.
Defined.

Module MarkFacts.
Import Pipeline Specs PipeFacts.

Lemma not_mark_no_mark ev v : forallb not_mark ev = true -> ~ In (EMark v) ev.
Proof.
  intros H Hin. apply forallb_forall with (x := EMark v) in H; [discriminate|exact Hin].
Qed.

Lemma in_mark_dec v ev : In (EMark v) ev \/ ~ In (EMark v) ev.
Proof.
  induction ev as [|e ev [IH|IH]]; [right; intros []|left; right; exact IH|].
  destruct e; try (right; intros [H|H]; [discriminate|exact (IH H)]).
  destruct (String.eqb_spec u v) as [->|Hne]; [left; left; reflexivity|].
  right. intros [H|H]; [congruence|exact (IH H)].
Qed.

Lemma ms_quiet {A} (m : M A) : quiet_by not_mark m -> marks_started m.
Proof.
  intros Hq s. destruct (Hq s) as [ev [He Hev]]. exists ev. rewrite He. cbn [scraped trace].
  split; [reflexivity|]. split; [|split].
  - intros v Hv. exfalso. exact (not_mark_no_mark ev v Hev Hv).
  - intros v _. reflexivity.
  - intros v Hv. exfalso. exact (not_mark_no_mark ev v Hev Hv).
Qed.

Lemma ms_bind {A B} (m : M A) (f : A -> M B) :
  marks_started m -> (forall a, marks_started (f a)) -> marks_started (m ≫= f).
Proof.
  intros Hm Hf s. rewrite bind_eq.
  destruct (Hm s) as (ev & Htr & Hmk & Hun & Hpr).
  destruct (m s) as [[a|e] s1] eqn:Hs; cbn [snd] in *.
  - destruct (Hf a s1) as (ev' & Htr' & Hmk' & Hun' & Hpr').
    exists (ev ++ ev'). rewrite Htr', Htr, app_assoc. split; [reflexivity|].
    split; [|split].
    + intros v Hv. destruct (in_mark_dec v ev') as [H'|H'];
        [apply Hmk', H'|]. rewrite Hun' by exact H'. apply Hmk.
      apply in_app_or in Hv. tauto.
    + intros v Hv. rewrite Hun', Hun; [reflexivity| |]; intros H; apply Hv, in_or_app; tauto.
    + intros v Hv. apply in_or_app. apply in_app_or in Hv as [H|H]; [left; apply Hpr, H|right; apply Hpr', H].
  - exists ev. split; [exact Htr|]. split; [exact Hmk|]. split; [exact Hun|exact Hpr].
Qed.

Lemma ms_foldM {A B} (f : A -> B -> M A) a l :
  (forall a x, marks_started (f a x)) -> marks_started (foldM f a l).
Proof.
  intros Hf. revert a. induction l as [|x l IH]; intros a; simpl.
  - apply ms_quiet, quiet_ret.
  - apply ms_bind; [apply Hf|]. intros a'. apply IH.
Qed.

Lemma mark_of_movie v u body :
  forallb not_mark body = true ->
  In (EMark v) (EProcess u :: body ++ [EMark u; ESave]) -> v = u.
Proof.
  intros Hb [H|H]; [discriminate|].
  apply in_app_or in H as [H|[H|[H|[]]]]; [exfalso; exact (not_mark_no_mark _ _ Hb H)|congruence|discriminate].
Qed.

Section Run.
Variable E : env.

Lemma ms_movie u :
  marks_started (fun s => match scraped s !! u with
                          | Some true => (Ok tt, s)
                          | _ => process_movie E u s
                          end).
Proof.
  intros s.
  assert (Hrun : exists ev, trace (snd (process_movie E u s)) = trace s ++ ev /\
    (forall v, In (EMark v) ev -> scraped (snd (process_movie E u s)) !! v = Some true) /\
    (forall v, ~ In (EMark v) ev -> scraped (snd (process_movie E u s)) !! v = scraped s !! v) /\
    (forall v, In (EMark v) ev -> In (EProcess v) ev)).
  { generalize (process_movie_shape E u s).
    destruct (process_movie E u s) as [[x|e] s']; intros (body & Htr & Hb & Hsc); cbn [snd].
    - exists (EProcess u :: body ++ [EMark u; ESave]). split; [exact Htr|]. split; [|split].
      + intros v Hv. rewrite (mark_of_movie v u body Hb Hv), Hsc. apply lookup_insert_eq.
      + intros v Hv. rewrite Hsc. apply lookup_insert_ne. intros ->. apply Hv.
        right. apply in_or_app. right. left. reflexivity.
      + intros v Hv. rewrite (mark_of_movie v u body Hb Hv). left. reflexivity.
    - exists (EProcess u :: body). split; [exact Htr|].
      assert (Hn : forall v, ~ In (EMark v) (EProcess u :: body)).
      { intros v [H|H]; [discriminate|exact (not_mark_no_mark _ _ Hb H)]. }
      split; [|split].
      + intros v Hv. exfalso. exact (Hn v Hv).
      + intros v _. rewrite Hsc. reflexivity.
      + intros v Hv. exfalso. exact (Hn v Hv). }
  destruct (scraped s !! u) as [[|]|]; [|exact Hrun|exact Hrun].
  exists []. rewrite app_nil_r. split; [reflexivity|]. split; [intros v []|].
  split; [reflexivity|intros v []].
Qed.

Lemma ms_run_movies links : marks_started (run_movies E links).
Proof.
  induction links as [|u us IH]; simpl.
  - apply ms_quiet, quiet_ret.
  - apply ms_bind; [apply ms_movie|intros _; exact IH].
Qed.

Lemma ms_run_scraper pages : marks_started (run_scraper E pages).
Proof.
  unfold run_scraper. apply ms_foldM. intros _ page_num.
  apply ms_bind.
  - apply ms_quiet, (load_page_quiet E _ plain_not_mark).
  - intros h. destruct h as [[|c t]|];
      first [apply ms_quiet, quiet_ret | apply ms_run_movies].
Qed.

End Run.

End MarkFacts.

(** The ledger across a whole run of [run_scraper], also when an
    exception (such as the [IndexError] of the title fallback) escapes it: an
    entry is set to [True] exactly for the detail pages marked during the
    run, each of which the run started; every other entry is left as it
    was, so no entry is ever removed or set to [False]. *)
Theorem run_scraper_ledger (E : Pipeline.env) (pages : list Z) (s : Pipeline.st) :
  exists ev,
    Pipeline.trace (snd (Pipeline.run_scraper E pages s)) = Pipeline.trace s ++ ev /\
    (forall v, In (Pipeline.EMark v) ev ->
       Pipeline.scraped (snd (Pipeline.run_scraper E pages s)) !! v = Some true) /\
    (forall v, ~ In (Pipeline.EMark v) ev ->
       Pipeline.scraped (snd (Pipeline.run_scraper E pages s)) !! v = Pipeline.scraped s !! v) /\
    (forall v, In (Pipeline.EMark v) ev -> In (Pipeline.EProcess v) ev).
Proof. exact (MarkFacts.ms_run_scraper E pages s). Qed.

Module SortedFacts.

Section Key.
Variable key : string -> nat.

Lemma insert_by_last x acc :
  (forall y, In y acc -> key y <= key x) -> insert_by key x acc = acc ++ [x].
Proof.
  induction acc as [|y ys IH]; intros H; [reflexivity|]. simpl.
  destruct (Nat.ltb_spec (key x) (key y)) as [Hlt|_].
  - specialize (H y (or_introl eq_refl)). lia.
  - rewrite IH; [reflexivity|]. intros z Hz. apply H. right. exact Hz.
Qed.

Lemma strongly_sorted_suffix (a b : list string) :
  StronglySorted (fun x y => key x <= key y) (a ++ b) ->
  StronglySorted (fun x y => key x <= key y) b.
Proof.
  induction a as [|x a IH]; intros H; [exact H|]. apply IH. apply (StronglySorted_inv H).
Qed.

Lemma fold_insert_sorted l acc :
  StronglySorted (fun a b => key a <= key b) (acc ++ l) ->
  fold_left (fun a x => insert_by key x a) l acc = acc ++ l.
Proof.
  revert acc. induction l as [|x l IH]; intros acc Hs; simpl; [rewrite app_nil_r; reflexivity|].
  rewrite insert_by_last.
  - rewrite IH; [rewrite <- app_assoc; reflexivity|]. rewrite <- app_assoc. exact Hs.
  - intros y Hy. apply in_split in Hy as (a & b & ->).
    rewrite <- app_assoc in Hs. cbn [app] in Hs.
    apply strongly_sorted_suffix in Hs.
    apply StronglySorted_inv in Hs as [_ Hall].
    rewrite List.Forall_forall in Hall. apply Hall. apply in_or_app. right. left. reflexivity.
Qed.

Lemma sorted_by_id l :
  Sorted (fun a b => key a <= key b) l -> sorted_by key l = l.
Proof.
  intros Hs. apply Sorted_StronglySorted in Hs; [|intros a b c; lia].
  apply (fold_insert_sorted l []). exact Hs.
Qed.

End Key.

End SortedFacts.

(** [prefer_links] is idempotent: a list it returned is returned
    unchanged when ranked again. *)
Theorem prefer_links_idempotent (links : list string) :
  prefer_links (prefer_links links) = prefer_links links.
Proof.
  unfold prefer_links. apply SortedFacts.sorted_by_id, (SortFacts.sorted_by_sorted score).
Qed.

Module QualityFacts.

Lemma extract_quality_eq (text : string) : extract_quality text = Specs.quality_spec text.
Proof.
  unfold extract_quality, Specs.quality_spec.
  destruct text as [|c t]; [reflexivity|].
  set (l := Py.chars (String c t)).
  rewrite MatchFacts.search_quality.
  destruct (Specs.first_tag l) as [[j tg]|] eqn:Hf; [|reflexivity].
  simpl option_map. cbv iota beta.
  apply MatchFacts.first_tag_spec in Hf as [Hp Hin].
  unfold Py.lower, slice. replace (j + length (Py.chars tg) - j) with (length (Py.chars tg)) by lia.
  unfold Py.of_chars, Py.chars at 1. rewrite list_ascii_of_string_of_list_ascii.
  rewrite (MatchFacts.ci_prefix_lower _ _ Hp), (MatchFacts.quality_tags_lower _ Hin).
  unfold Py.chars. apply string_of_list_ascii_of_string.
Qed.

End QualityFacts.

(** [extract_quality] only ever returns one of six values: 2160p, 1080p,
    720p, 480p, 360p (lower case, whatever the case of the text) or
    ["Unknown"]; so the quality column of every written record is one of
    them. *)
Theorem extract_quality_values (text : string) :
  In (extract_quality text) ["2160p"; "1080p"; "720p"; "480p"; "360p"; "Unknown"].
Proof.
  rewrite QualityFacts.extract_quality_eq. unfold Specs.quality_spec.
  destruct (Specs.first_tag (Py.chars text)) as [[j t]|] eqn:Hf.
  - apply MatchFacts.first_tag_spec in Hf as [_ Hin].
    unfold Specs.QUALITY_TAGS in Hin. simpl in Hin |- *. tauto.
  - simpl. tauto.
Qed.

Module StartFacts.
Import Pipeline Specs PipeFacts.

Section Pred.
Variable P : string -> Prop.

Lemma so_quiet {A} (m : M A) : quiet_by not_mark m -> starts_only P m.
Proof.
  intros Hq s. destruct (Hq s) as [ev [He Hev]]. exists ev. rewrite He.
  split; [reflexivity|]. intros v Hv.
  apply forallb_forall with (x := EProcess v) in Hev; [discriminate|exact Hv].
Qed.

Lemma so_bind {A B} (m : M A) (f : A -> M B) :
  starts_only P m -> (forall a, starts_only P (f a)) -> starts_only P (m ≫= f).
Proof.
  intros Hm Hf s. rewrite bind_eq.
  destruct (Hm s) as (ev & Htr & Hp).
  destruct (m s) as [[a|e] s1]; cbn [snd] in *.
  - destruct (Hf a s1) as (ev' & Htr' & Hp').
    exists (ev ++ ev'). rewrite Htr', Htr, app_assoc. split; [reflexivity|].
    intros v Hv. apply in_app_or in Hv as [H|H]; [apply Hp, H|apply Hp', H].
  - exists ev. split; [exact Htr|exact Hp].
Qed.

Lemma so_foldM {A B} (f : A -> B -> M A) a l :
  (forall a x, starts_only P (f a x)) -> starts_only P (foldM f a l).
Proof.
  intros Hf. revert a. induction l as [|x l IH]; intros a; simpl.
  - apply so_quiet, quiet_ret.
  - apply so_bind; [apply Hf|]. intros a'. apply IH.
Qed.

Lemma so_movie (E : env) u :
  P u ->
  starts_only P (fun s => match scraped s !! u with
                          | Some true => (Ok tt, s)
                          | _ => process_movie E u s
                          end).
Proof.
  intros Hu s.
  assert (Hrun : exists ev, trace (snd (process_movie E u s)) = trace s ++ ev /\
                            (forall v, In (EProcess v) ev -> P v)).
  { generalize (process_movie_shape E u s).
    destruct (process_movie E u s) as [[x|e] s']; intros (body & Htr & Hb & _); cbn [snd].
    - exists (EProcess u :: body ++ [EMark u; ESave]). split; [exact Htr|].
      intros v [H|H]; [injection H as ->; exact Hu|].
      apply in_app_or in H as [H|[H|[H|[]]]]; try discriminate.
      apply forallb_forall with (x := EProcess v) in Hb; [discriminate|exact H].
    - exists (EProcess u :: body). split; [exact Htr|].
      intros v [H|H]; [injection H as ->; exact Hu|].
      apply forallb_forall with (x := EProcess v) in Hb; [discriminate|exact H]. }
  destruct (scraped s !! u) as [[|]|]; [|exact Hrun|exact Hrun].
  exists []. rewrite app_nil_r. split; [reflexivity|intros v []].
Qed.

Lemma so_run_movies (E : env) links :
  List.Forall P links -> starts_only P (run_movies E links).
Proof.
  induction links as [|u us IH]; intros Hl; simpl.
  - apply so_quiet, quiet_ret.
  - apply List.Forall_cons_iff in Hl as [Hu Hus].
    apply so_bind; [apply so_movie, Hu|intros _; apply IH, Hus].
Qed.

End Pred.

Lemma so_run_scraper (E : env) pages :
  starts_only (fun v => Py.startswith "http" v = true) (run_scraper E pages).
Proof.
  unfold run_scraper. apply so_foldM. intros _ page_num.
  apply so_bind.
  - apply so_quiet, (load_page_quiet E _ plain_not_mark).
  - intros h. destruct h as [[|c t]|]; [apply so_quiet, quiet_ret| |apply so_quiet, quiet_ret].
    cbv zeta. apply so_run_movies. apply List.Forall_forall. intros v Hv.
    apply List.filter_In in Hv as [_ Hv]. apply andb_prop in Hv as [_ Hv]. exact Hv.
Qed.

End StartFacts.

(** [run_scraper] only starts detail pages whose URL begins with
    "http" (the links of a listing page are filtered so), whatever the
    outcome of the run. *)
Theorem run_scraper_starts_http (E : Pipeline.env) (pages : list Z) (s : Pipeline.st) :
  exists ev,
    Pipeline.trace (snd (Pipeline.run_scraper E pages s)) = Pipeline.trace s ++ ev /\
    (forall v, In (Pipeline.EProcess v) ev -> Py.startswith "http" v = true).
Proof. exact (StartFacts.so_run_scraper E pages s). Qed.

Module CleanFacts.

Lemma to_lower_space c : py_isspace (to_lower c) = py_isspace c.
Proof. destruct c as [[] [] [] [] [] [] [] []]; reflexivity. Qed.

Lemma to_upper_space c : py_isspace (to_upper c) = py_isspace c.
Proof. destruct c as [[] [] [] [] [] [] [] []]; reflexivity. Qed.

Lemma title_l_space b l : map py_isspace (Py.title_l b l) = map py_isspace l.
Proof.
  revert b. induction l as [|c l IH]; intros b; [reflexivity|]. simpl.
  rewrite IH. destruct b; rewrite ?to_lower_space, ?to_upper_space; reflexivity.
Qed.

Lemma hd_error_map {A B} (f : A -> B) l : hd_error (map f l) = option_map f (hd_error l).
Proof. destruct l; reflexivity. Qed.

Lemma lstrip_suffix l : exists p, l = p ++ Py.lstrip_l l.
Proof.
  induction l as [|c l [p IH]]; [exists []; reflexivity|]. simpl.
  destruct (py_isspace c); [exists (c :: p); simpl; f_equal; exact IH|exists []; reflexivity].
Qed.

Lemma lstrip_hd l c : hd_error (Py.lstrip_l l) = Some c -> py_isspace c = false.
Proof.
  induction l as [|d l IH]; simpl; [discriminate|].
  destruct (py_isspace d) eqn:Hd; [exact IH|]. simpl. intros [= <-]. exact Hd.
Qed.

Lemma hd_error_app_l {A} (a b : list A) x : hd_error a = Some x -> hd_error (a ++ b) = Some x.
Proof. destruct a; simpl; [discriminate|exact id]. Qed.

Lemma strip_last l c : hd_error (rev (Py.strip_l l)) = Some c -> py_isspace c = false.
Proof. unfold Py.strip_l. rewrite rev_involutive. apply lstrip_hd. Qed.

Lemma strip_hd l c : hd_error (Py.strip_l l) = Some c -> py_isspace c = false.
Proof.
  unfold Py.strip_l. intros H. apply (lstrip_hd l c).
  destruct (lstrip_suffix (rev (Py.lstrip_l l))) as [p Hp].
  assert (Hr : Py.lstrip_l l = rev (rev (Py.lstrip_l l))) by (rewrite rev_involutive; reflexivity).
  rewrite Hr, Hp, rev_app_distr. apply hd_error_app_l, H.
Qed.

End CleanFacts.

(** [clean_title] never returns a title that begins or ends with
    whitespace: the final [.strip()] removes it and [.title()] only
    changes the case of letters. *)
Theorem clean_title_trimmed (raw : string) :
  (forall c, hd_error (Py.chars (clean_title raw)) = Some c -> py_isspace c = false) /\
  (forall c, hd_error (rev (Py.chars (clean_title raw))) = Some c -> py_isspace c = false).
Proof.
  destruct raw as [|r0 raw]; [split; intros c; vm_compute; intros [= <-]; reflexivity|].
  unfold clean_title. cbv zeta. rewrite ConfigFacts.chars_of_chars.
  set (l := Py.strip_l _).
  assert (Hm : map py_isspace (Py.title_l false l) = map py_isspace l) by apply CleanFacts.title_l_space.
  split; intros c Hc.
  - assert (H1 := f_equal (@hd_error bool) Hm). rewrite !CleanFacts.hd_error_map, Hc in H1.
    destruct (hd_error l) as [d|] eqn:Hd; [|discriminate]. injection H1 as ->.
    apply (CleanFacts.strip_hd _ _ Hd).
  - assert (H1 := f_equal (fun x => hd_error (rev x)) Hm). cbv beta in H1.
    rewrite <- !map_rev, !CleanFacts.hd_error_map, Hc in H1.
    destruct (hd_error (rev l)) as [d|] eqn:Hd; [|discriminate]. injection H1 as ->.
    apply (CleanFacts.strip_last _ _ Hd).
Qed.

Module SubFacts.

Lemma in_skipn_nth {A} (c : A) p l : In c (skipn p l) -> exists j, p <= j /\ nth_error l j = Some c.
Proof.
  intros H. apply In_nth_error in H as [n Hn]. rewrite nth_error_skipn in Hn.
  exists (p + n). split; [lia|exact Hn].
Qed.

Lemma in_slice_nth c s a b :
  In c (slice s a b) -> exists j, a <= j < b /\ nth_error s j = Some c.
Proof.
  unfold slice. intros H. apply In_nth_error in H as [n Hn].
  rewrite nth_error_firstn in Hn. destruct (Nat.ltb_spec n (b - a)) as [Hlt|]; [|discriminate].
  rewrite nth_error_skipn in Hn. exists (a + n). split; [lia|exact Hn].
Qed.

Lemma in_firstn {A} (c : A) n l : In c (firstn n l) -> In c l.
Proof. intros H. rewrite <- (firstn_skipn n l). apply in_or_app. left. exact H. Qed.

Lemma in_skipn {A} (c : A) n l : In c (skipn n l) -> In c l.
Proof. intros H. rewrite <- (firstn_skipn n l). apply in_or_app. right. exact H. Qed.

Lemma in_slice c s a b : In c (slice s a b) -> In c s.
Proof. unfold slice. intros H. apply in_firstn in H. apply in_skipn in H. exact H. Qed.

(** The characters of a [re.sub] result come from the input or from
    the replacements. *)
Lemma sub_from_chars (P : ascii -> Prop) ci r repl s :
  (forall c, In c s -> P c) -> (forall a b c, In c (repl a b) -> P c) ->
  forall n pos c, In c (sub_from ci r repl s pos n) -> P c.
Proof.
  intros Hs Hr n. induction n as [|n IH]; intros pos c Hc; cbn [sub_from] in Hc.
  - apply Hs, (in_skipn _ pos), Hc.
  - destruct (search_from ci r s pos (S (length s - pos))) as [[a b]|].
    + apply in_app_or in Hc as [Hc|Hc]; [apply Hs, (in_slice _ _ pos a), Hc|].
      apply in_app_or in Hc as [Hc|Hc]; [apply (Hr a b), Hc|].
      destruct (a =? b); [apply in_app_or in Hc as [Hc|Hc]|].
      * apply Hs. apply in_firstn in Hc. apply in_skipn in Hc. exact Hc.
      * apply (IH (S b)), Hc.
      * apply (IH b), Hc.
    + apply Hs, (in_skipn _ pos), Hc.
Qed.

Lemma sub_chars (P : ascii -> Prop) ci r repl s :
  (forall c, In c s -> P c) -> (forall a b c, In c (repl a b) -> P c) ->
  forall c, In c (sub ci r repl s) -> P c.
Proof. intros Hs Hr c. apply (sub_from_chars P ci r repl s Hs Hr). Qed.

(** The end of a match is never before its start. *)
Lemma mt_ge ci s r : forall i k e, mt ci s r i k = Some e -> exists j, i <= j /\ k j = Some e.
Proof.
  induction r as [c| |f| | | |r1 IH1 r2 IH2|r1 IH1 r2 IH2|g r1 IH1]; intros i k e H; cbn [mt] in H.
  - destruct (nth_error s i); [|discriminate]. destruct (chr_eq ci c a); [|discriminate].
    exists (S i). split; [lia|exact H].
  - destruct (nth_error s i); [|discriminate]. destruct (Ascii.eqb a nl); [discriminate|].
    exists (S i). split; [lia|exact H].
  - destruct (nth_error s i); [|discriminate]. destruct (f a); [|discriminate].
    exists (S i). split; [lia|exact H].
  - destruct (boundary s i); [|discriminate]. exists i. split; [lia|exact H].
  - destruct (at_eol s i); [|discriminate]. exists i. split; [lia|exact H].
  - exists i. split; [lia|exact H].
  - destruct (IH1 _ _ _ H) as [j [Hj Hk]]. destruct (IH2 _ _ _ Hk) as [j' [Hj' Hk']].
    exists j'. split; [lia|exact Hk'].
  - destruct (mt ci s r1 i k) eqn:H1.
    + injection H as ->. apply (IH1 _ _ _ H1).
    + apply (IH2 _ _ _ H).
  - assert (Gen : forall n i e,
      (fix star (n : nat) (i : nat) {struct n} : option nat :=
         match n with
         | 0 => k i
         | S n' =>
             if g then
               match mt ci s r1 i (fun j => if i <? j then star n' j else None) with
               | Some e => Some e
               | None => k i
               end
             else
               match k i with
               | Some e => Some e
               | None => mt ci s r1 i (fun j => if i <? j then star n' j else None)
               end
         end) n i = Some e -> exists j, i <= j /\ k j = Some e).
    { intros n. induction n as [|n IHn]; intros i' e' He; [exists i'; split; [lia|exact He]|].
      assert (Hstep : forall e'', mt ci s r1 i' (fun j => if i' <? j then
          (fix star (n : nat) (i : nat) {struct n} : option nat :=
             match n with
             | 0 => k i
             | S n' =>
                 if g then
                   match mt ci s r1 i (fun j => if i <? j then star n' j else None) with
                   | Some e => Some e
                   | None => k i
                   end
                 else
                   match k i with
                   | Some e => Some e
                   | None => mt ci s r1 i (fun j => if i <? j then star n' j else None)
                   end
             end) n j else None) = Some e'' -> exists j, i' <= j /\ k j = Some e'').
      { intros e'' H''. destruct (IH1 _ _ _ H'') as [j [Hj Hk]].
        destruct (Nat.ltb_spec i' j); [|discriminate].
        destruct (IHn j _ Hk) as [j' [Hj' Hk']]. exists j'. split; [lia|exact Hk']. }
      cbn beta iota in He. destruct g.
      + destruct (mt ci s r1 i' _) eqn:H1.
        * injection He as ->. exact (Hstep _ eq_refl).
        * exists i'. split; [lia|exact He].
      + destruct (k i') eqn:Hki.
        * injection He as ->. exists i'. split; [lia|exact Hki].
        * exact (Hstep _ He). }
    exact (Gen (S (length s - i)) i e H).
Qed.

Lemma search_from_none ci r s i n :
  search_from ci r s i n = None -> forall j, i <= j < i + n -> mt ci s r j Some = None.
Proof.
  revert i. induction n as [|n IH]; intros i H j Hj; [lia|]. cbn [search_from] in H.
  destruct (mt ci s r i Some) eqn:Hm; [discriminate|].
  destruct (decide (j = i)) as [->|Hne]; [exact Hm|]. apply (IH (S i) H). lia.
Qed.

Lemma search_from_leftmost ci r s i n a b :
  search_from ci r s i n = Some (a, b) ->
  i <= a /\ mt ci s r a Some = Some b /\ forall j, i <= j < a -> mt ci s r j Some = None.
Proof.
  revert i. induction n as [|n IH]; intros i H; [discriminate|]. cbn [search_from] in H.
  destruct (mt ci s r i Some) eqn:Hm.
  - injection H as <- <-. split; [lia|]. split; [exact Hm|intros j Hj; lia].
  - destruct (IH (S i) H) as (Ha & Hb & Hbefore). split; [lia|]. split; [exact Hb|].
    intros j Hj. destruct (decide (j = i)) as [->|Hne]; [exact Hm|]. apply Hbefore. lia.
Qed.

(** A match of [c+] for a character class [c] is not empty and starts
    with a character of the class; such a character always starts one. *)
Lemma plus_cls_match ci s f i e : mt ci s (plus (RCls f)) i Some = Some e -> i < e.
Proof.
  unfold plus.
  change (mt ci s (RCat (RCls f) (RStar true (RCls f))) i Some)
    with (match nth_error s i with
          | Some d => if f d then mt ci s (RStar true (RCls f)) (S i) Some else None
          | None => None
          end).
  destruct (nth_error s i); [|discriminate]. destruct (f a); [|discriminate].
  intros H. destruct (mt_ge _ _ _ _ _ _ H) as [j [Hj Hk]]. injection Hk as <-. lia.
Qed.

Lemma plus_cls_some ci s f i d :
  nth_error s i = Some d -> f d = true -> mt ci s (plus (RCls f)) i Some <> None.
Proof.
  intros Hd Hf. unfold plus.
  change (mt ci s (RCat (RCls f) (RStar true (RCls f))) i Some)
    with (match nth_error s i with
          | Some d => if f d then mt ci s (RStar true (RCls f)) (S i) Some else None
          | None => None
          end).
  rewrite Hd, Hf. cbn [mt]. repeat case_match; congruence.
Qed.

(** [re.sub(c+, repl, s)] leaves no character of the class [c] when
    the replacements have none. *)
Lemma sub_from_plus_cls ci f repl s :
  (forall a b c, In c (repl a b) -> f c = false) ->
  forall n pos, length s < pos + n ->
  forall c, In c (sub_from ci (plus (RCls f)) repl s pos n) -> f c = false.
Proof.
  intros Hr n. induction n as [|n IH]; intros pos Hlen c Hc; cbn [sub_from] in Hc.
  - rewrite skipn_all2 in Hc by lia. destruct Hc.
  - destruct (search_from ci (plus (RCls f)) s pos (S (length s - pos))) as [[a b]|] eqn:Hs.
    + destruct (search_from_leftmost _ _ _ _ _ _ _ Hs) as (Ha & Hb & Hbefore).
      assert (Hab := plus_cls_match _ _ _ _ _ Hb).
      rewrite (proj2 (Nat.eqb_neq a b)) in Hc by lia.
      apply in_app_or in Hc as [Hc|Hc].
      * destruct (in_slice_nth _ _ _ _ Hc) as [j [Hj Hjc]].
        destruct (f c) eqn:Hf; [|reflexivity].
        exfalso. apply (plus_cls_some ci s f j c Hjc Hf), Hbefore. lia.
      * apply in_app_or in Hc as [Hc|Hc]; [apply (Hr a b), Hc|].
        apply (IH b); [lia|exact Hc].
    + destruct (in_skipn_nth _ _ _ Hc) as [j [Hj Hjc]].
      assert (Hjl : j < length s) by (apply nth_error_Some; congruence).
      destruct (f c) eqn:Hf; [|reflexivity].
      exfalso. apply (plus_cls_some ci s f j c Hjc Hf).
      apply (search_from_none _ _ _ _ _ Hs). lia.
Qed.

Lemma sub_plus_cls ci f repl s :
  (forall a b c, In c (repl a b) -> f c = false) ->
  forall c, In c (sub ci (plus (RCls f)) repl s) -> f c = false.
Proof.
  intros Hr c Hc. exact (sub_from_plus_cls ci f repl s Hr (S (length s)) 0 (Nat.lt_succ_diag_r _) c Hc).
Qed.

End SubFacts.

Module TitleCharFacts.

Lemma sep_lower c :
  (fun d => Ascii.eqb d "." || Ascii.eqb d "_" || Ascii.eqb d "-") (to_lower c) =
  (fun d => Ascii.eqb d "." || Ascii.eqb d "_" || Ascii.eqb d "-") c.
Proof. destruct c as [[] [] [] [] [] [] [] []]; reflexivity. Qed.

Lemma sep_upper c :
  (fun d => Ascii.eqb d "." || Ascii.eqb d "_" || Ascii.eqb d "-") (to_upper c) =
  (fun d => Ascii.eqb d "." || Ascii.eqb d "_" || Ascii.eqb d "-") c.
Proof. destruct c as [[] [] [] [] [] [] [] []]; reflexivity. Qed.

Lemma title_l_in b l d :
  In d (Py.title_l b l) -> exists c, In c l /\ (d = to_lower c \/ d = to_upper c).
Proof.
  revert b. induction l as [|c l IH]; intros b H; [destruct H|]. simpl in H.
  destruct H as [H|H].
  - exists c. split; [left; reflexivity|]. destruct b; [left|right]; symmetry; exact H.
  - destruct (IH _ H) as [c' [Hc' Hd]]. exists c'. split; [right; exact Hc'|exact Hd].
Qed.

Lemma strip_in l c : In c (Py.strip_l l) -> In c l.
Proof.
  unfold Py.strip_l. intros H. apply in_rev in H.
  destruct (CleanFacts.lstrip_suffix (rev (Py.lstrip_l l))) as [p Hp].
  assert (H1 : In c (rev (Py.lstrip_l l))) by (rewrite Hp; apply in_or_app; right; exact H).
  apply in_rev in H1. destruct (CleanFacts.lstrip_suffix l) as [q Hq].
  rewrite Hq. apply in_or_app. right. exact H1.
Qed.

Lemma junk_chars (P : ascii -> Prop) pats s :
  (forall c, In c s -> P c) ->
  forall c, In c (fold_left (fun acc pat => sub true pat erase acc) pats s) -> P c.
Proof.
  revert s. induction pats as [|pat pats IH]; intros s Hs; simpl; [exact Hs|].
  apply IH. apply SubFacts.sub_chars; [exact Hs|intros a b c []].
Qed.

Lemma clean_title_shape r0 raw : exists y,
  Py.chars (clean_title (String r0 raw)) =
  Py.title_l false (Py.strip_l (sub false WS_RE blank
    (fold_left (fun acc pat => sub true pat erase acc) JUNK (sub false SEP_RE blank y)))).
Proof.
  eexists. unfold clean_title. cbv zeta. rewrite ConfigFacts.chars_of_chars. reflexivity.
Qed.

End TitleCharFacts.

(** [clean_title] leaves no '.', '_' or '-' in a title: runs of them are
    turned into spaces ([re.sub(r"[._\-]+", " ", s)]), and the later
    steps only erase text, insert spaces or change the case of letters.
    So "Spider-Man" becomes "Spider Man". *)
Theorem clean_title_no_separators (raw : string) :
  List.Forall (fun c => c <> "."%char /\ c <> "_"%char /\ c <> "-"%char)
              (Py.chars (clean_title raw)).
Proof.
  apply List.Forall_forall. intros d Hd.
  assert (Hsep : (fun d => Ascii.eqb d "." || Ascii.eqb d "_" || Ascii.eqb d "-") d = false).
  { destruct raw as [|r0 raw].
    - vm_compute in Hd. repeat destruct Hd as [<-|Hd]; try reflexivity. destruct Hd.
    - destruct (TitleCharFacts.clean_title_shape r0 raw) as [y Hy]. rewrite Hy in Hd.
      apply TitleCharFacts.title_l_in in Hd as [c [Hc Hdc]].
      assert (Hr : forall a b c', In c' (blank a b) ->
                 (fun d => Ascii.eqb d "." || Ascii.eqb d "_" || Ascii.eqb d "-") c' = false).
      { intros a b c' [<-|[]]. reflexivity. }
      assert (Hc' : (fun d => Ascii.eqb d "." || Ascii.eqb d "_" || Ascii.eqb d "-") c = false).
      { apply TitleCharFacts.strip_in in Hc. clear Hdc. revert c Hc.
        apply (SubFacts.sub_chars (fun d =>
                 (fun d => Ascii.eqb d "." || Ascii.eqb d "_" || Ascii.eqb d "-") d = false));
          [|exact Hr].
        apply TitleCharFacts.junk_chars. intros c Hc.
        exact (SubFacts.sub_plus_cls false
                 (fun d => Ascii.eqb d "." || Ascii.eqb d "_" || Ascii.eqb d "-")
                 blank y Hr c Hc). }
      destruct Hdc as [->| ->]; [rewrite TitleCharFacts.sep_lower|rewrite TitleCharFacts.sep_upper];
        exact Hc'. }
  cbv beta in Hsep. apply orb_false_iff in Hsep as [Hsep H3]. apply orb_false_iff in Hsep as [H1 H2].
  split; [|split]; intros ->; [discriminate H1|discriminate H2|discriminate H3].
Qed.

